(** * GPIO doorbell accessory: debounce, throttle and mute state machine

    A shallow embedding of [GpioDoorbellAccessory] (the accessory class of
    the homebridge-gpio-doorbell plugin) and the properties of its
    pin-change evaluation path.

    The accessory is a JavaScript object living in a single-threaded event
    loop.  Its fields are the record [Accessory]; what surrounds it (the
    clock, the GPIO driver, the webhook endpoint, the node-persist store,
    the pending timers and the pending promise reactions) is the rest of
    the record [Machine].  Every method is a computation in a small
    state-and-output monad [M]: it transforms the machine and emits the
    list of the effects one can observe from outside (log lines, pin
    writes, HomeKit updates, HTTP requests), oldest first. *)

From Stdlib Require Import ZArith List Bool Lia.
From stdpp Require Import base option list sorting gmap strings.
Import ListNotations.

#[local] Open Scope Z_scope.

(** ** Values of the JavaScript side *)

(** An error object, as far as the code looks into it: [e.response]
    (status and data) and [e.message]. *)
Record JsError := mkJsError {
  response : option (Z * string);
  message : option string;
}.

(** How a promise ends. *)
Inductive Settled (A : Type) :=
| Fulfilled (a : A)
| Rejected (e : JsError).
Arguments Fulfilled {A} a.
Arguments Rejected {A} e.

(** What [axios.get(url)] does: it throws before returning (never the case
    for a network error or a non-2xx answer, which axios reports by
    rejecting), or it returns a promise. *)
Inductive AxiosOutcome :=
| Throws (e : JsError)
| Returns (p : Settled unit).

(** Truthiness of the three kinds of values the code tests. *)
Definition truthy_number (x : option Z) : bool :=
  match x with
  | Some t => negb (t =? 0)
  | None => false
  end.

Definition truthy_boolean (x : option bool) : bool :=
  match x with
  | Some b => b
  | None => false
  end.

Definition truthy_string (x : option string) : bool :=
  match x with
  | Some EmptyString => false
  | Some _ => true
  | None => false
  end.

(** [a === b] on [boolean | undefined]. *)
Definition strict_eq (a b : option bool) : bool := bool_decide (a = b).

(** ** Configuration ([this.config])

    The fields the code reads, with the types the plugin's configuration
    gives them: pins and times (milliseconds) are integers, the URL may be
    absent. *)

Record Config := mkConfig {
  name : string;
  gpioPin : Z;
  enableOutput : bool;
  outputGpioPin : Z;
  negateInput : bool;
  glitchTime : Z;
  throttleTime : Z;
  enableHttpTrigger : bool;
  httpTriggerUrl : option string;
}.

(** ** Observable effects *)

Inductive LogLevel := Debug | Info | Error.

(** The log lines of the source, by their template. *)
Inductive Message :=
| MsgLoaded
| MsgEnableOutput (pin : Z)
| MsgPinChanged (pin : Z) (circuitOpen : bool) (identifier : option Z)
| MsgIgnoreNotLast
| MsgIgnoreSame (currentValue lastValue : option bool)
| MsgSettingPin (pin : Z) (high : bool)
| MsgThrottled (pin : Z)
| MsgRang (accessory : string)
| MsgForwardHomeKit
| MsgWebhookRequest (url : string)
| MsgWebhookStatus (status : Z) (data : string)
| MsgWebhookMessage (msg : option string)
| MsgSetMute (value : bool)
| MsgGetMute
| MsgErr (e : JsError).

Inductive Direction := DIR_IN_EDGE_BOTH | DIR_LOW.

Inductive Characteristic :=
| ProgrammableSwitchEvent_SINGLE_PRESS
| Mute (value : bool).

Inductive Event :=
| Log (level : LogLevel) (m : Message)
| GpioOnChange
| GpioSetup (pin : Z) (dir : Direction)
| GpioWrite (pin : Z) (value : bool)
| UpdateCharacteristic (c : Characteristic)
| AxiosGet (url : string)
| UnhandledRejection (e : JsError).

(** ** The object and its surroundings *)

(** The mutable fields of the accessory. *)
Record Accessory := mkAccessory {
  lastRang : option Z;
  doorbellMute : bool;
  lastPinChangeDate : option Z;
  currentPinValue : option bool;
}.

(** A callback handed to [setTimeout] with its delay and its two
    arguments. *)
Record Timer := mkTimer {
  delay : Z;
  timerPin : Z;
  changeTimeStamp : option Z;
}.

(** A promise with the handlers the code attached to it, waiting for the
    event loop.  [ReadReaction cell p] is [readPromise(channel)] with the
    [then] and [catch] handlers of [read], which close over the local
    variable stored in [cell]; [AxiosReaction p] is the promise returned by
    [axios.get], to which the code attaches no handler. *)
Inductive Reaction :=
| ReadReaction (cell : nat) (p : Settled bool)
| AxiosReaction (p : Settled unit).

Record Machine := mkMachine {
  self : Accessory;
  (** node-persist store *)
  storage : gmap string bool;
  (** successive readings of [Date.now()], and how many were taken *)
  clock : nat -> Z;
  ticks : nat;
  (** how [GPIO.read] on a channel ends *)
  gpio : Z -> Settled bool;
  (** how [axios.get] on a URL behaves *)
  webhook : string -> AxiosOutcome;
  (** local variables captured by closures *)
  locals : list (option bool);
  reactions : list Reaction;
  timers : list Timer;
}.

Definition with_self (f : Accessory -> Accessory) (m : Machine) : Machine :=
  mkMachine (f (self m)) (storage m) (clock m) (ticks m) (gpio m) (webhook m)
            (locals m) (reactions m) (timers m).

Definition with_storage (f : gmap string bool -> gmap string bool) (m : Machine) : Machine :=
  mkMachine (self m) (f (storage m)) (clock m) (ticks m) (gpio m) (webhook m)
            (locals m) (reactions m) (timers m).

Definition with_ticks (f : nat -> nat) (m : Machine) : Machine :=
  mkMachine (self m) (storage m) (clock m) (f (ticks m)) (gpio m) (webhook m)
            (locals m) (reactions m) (timers m).

Definition with_locals (f : list (option bool) -> list (option bool)) (m : Machine) : Machine :=
  mkMachine (self m) (storage m) (clock m) (ticks m) (gpio m) (webhook m)
            (f (locals m)) (reactions m) (timers m).

Definition with_reactions (f : list Reaction -> list Reaction) (m : Machine) : Machine :=
  mkMachine (self m) (storage m) (clock m) (ticks m) (gpio m) (webhook m)
            (locals m) (f (reactions m)) (timers m).

Definition with_timers (f : list Timer -> list Timer) (m : Machine) : Machine :=
  mkMachine (self m) (storage m) (clock m) (ticks m) (gpio m) (webhook m)
            (locals m) (reactions m) (f (timers m)).

Definition with_surroundings (g : Z -> Settled bool) (h : string -> AxiosOutcome)
    (m : Machine) : Machine :=
  mkMachine (self m) (storage m) (clock m) (ticks m) g h
            (locals m) (reactions m) (timers m).

(** ** The monad *)

Definition M (A : Type) : Type := Machine -> A * Machine * list Event.

Definition ret {A} (a : A) : M A := fun m => (a, m, []).

Definition bind {A B} (c : M A) (k : A -> M B) : M B :=
  fun m =>
    let '(a, m1, out1) := c m in
    let '(b, m2, out2) := k a m1 in
    (b, m2, out1 ++ out2).

Declare Scope M_scope.
Delimit Scope M_scope with M.
Notation "x <- c ;; k" := (bind c (fun x => k))
  (at level 100, c at next level, right associativity) : M_scope.
Notation "c ;; k" := (bind c (fun _ => k))
  (at level 100, right associativity) : M_scope.

Definition value_of {A} (r : A * Machine * list Event) : A := fst (fst r).
Definition machine_of {A} (r : A * Machine * list Event) : Machine := snd (fst r).
Definition events_of {A} (r : A * Machine * list Event) : list Event := snd r.

Definition emit (e : Event) : M unit := fun m => (tt, m, [e]).
Definition gets {A} (f : Machine -> A) : M A := fun m => (f m, m, []).
Definition modify (f : Machine -> Machine) : M unit := fun m => (tt, f m, []).

Definition log (level : LogLevel) (msg : Message) : M unit := emit (Log level msg).

(** [Date.now()] *)
Definition Date_now : M Z :=
  fun m => (clock m (ticks m), with_ticks S m, []).

(** Assignments to the fields of [this]. *)
Definition set_lastRang (v : option Z) : M unit :=
  modify (with_self (fun a =>
    mkAccessory v (doorbellMute a) (lastPinChangeDate a) (currentPinValue a))).

Definition set_doorbellMute (v : bool) : M unit :=
  modify (with_self (fun a =>
    mkAccessory (lastRang a) v (lastPinChangeDate a) (currentPinValue a))).

Definition set_lastPinChangeDate (v : option Z) : M unit :=
  modify (with_self (fun a =>
    mkAccessory (lastRang a) (doorbellMute a) v (currentPinValue a))).

Definition set_currentPinValue (v : option bool) : M unit :=
  modify (with_self (fun a =>
    mkAccessory (lastRang a) (doorbellMute a) (lastPinChangeDate a) v)).

(** [storage.getItemSync(key)] and [storage.setItemSync(key, value)] *)
Definition getItemSync (key : string) : M (option bool) :=
  gets (fun m => storage m !! key).

Definition setItemSync (key : string) (value : bool) : M unit :=
  modify (with_storage (fun s => <[key := value]> s)).

(** A [let] variable that a closure captures: allocated in [locals]. *)
Definition declare_local (init : option bool) : M nat :=
  fun m => (length (locals m), with_locals (fun l => l ++ [init]) m, []).

Definition read_local (cell : nat) : M (option bool) :=
  gets (fun m => default None (locals m !! cell)).

Definition write_local (cell : nat) (v : option bool) : M unit :=
  modify (with_locals (fun l => <[cell := v]> l)).

(** Handlers attached to a promise run from the event loop, after the code
    that attached them has returned. *)
Definition enqueue (r : Reaction) : M unit :=
  modify (with_reactions (fun l => l ++ [r])).

(** [setTimeout(callback, delay, gpioPin, changeTimeStamp)] *)
Definition setTimeout (d : Z) (pin : Z) (stamp : option Z) : M unit :=
  modify (with_timers (fun l => l ++ [mkTimer d pin stamp])).

#[local] Open Scope M_scope.

(** ** The methods *)

Definition doorbellMuteKey : string := "homebridge-gpio-doorbell.mute".

(** [read(channel)] *)
Definition read (channel : Z) : M (option bool) :=
  value <- declare_local None ;;
  p <- gets (fun m => gpio m channel) ;;
  enqueue (ReadReaction value p) ;;
  read_local value.

(** The [then] and [catch] handlers of [read], and what the runtime does
    with a promise nobody handles. *)
Definition settle (r : Reaction) : M unit :=
  match r with
  | ReadReaction value (Fulfilled val) => write_local value (Some val)
  | ReadReaction value (Rejected err) =>
      log Error (MsgErr err) ;;
      write_local value None
  | AxiosReaction (Fulfilled _) => ret tt
  | AxiosReaction (Rejected e) => emit (UnhandledRejection e)
  end.

(** [setupGpio()] *)
Definition setupGpio (cfg : Config) : M unit :=
  emit GpioOnChange ;;
  emit (GpioSetup (gpioPin cfg) DIR_IN_EDGE_BOTH) ;;
  v <- read (gpioPin cfg) ;;
  set_currentPinValue v ;;
  if enableOutput cfg then
    log Debug (MsgEnableOutput (outputGpioPin cfg)) ;;
    emit (GpioSetup (outputGpioPin cfg) DIR_LOW)
  else ret tt.

(** The part of the constructor that touches the state: restoring the mute
    flag and setting up the pins.  The fields start undefined. *)
Definition construct (cfg : Config) : M unit :=
  log Debug MsgLoaded ;;
  stored <- getItemSync doorbellMuteKey ;;
  set_doorbellMute (default false stored) ;;
  mute <- gets (fun m => doorbellMute (self m)) ;;
  setItemSync doorbellMuteKey mute ;;
  emit (UpdateCharacteristic (Mute mute)) ;;
  setupGpio cfg.

(** [handlePinChange(gpioPin, circuitOpen)]: the synchronous part, up to
    the call of [setTimeout]. *)
Definition handlePinChange (cfg : Config) (pin : Z) (circuitOpen : bool) : M unit :=
  now <- Date_now ;;
  set_lastPinChangeDate (Some now) ;;
  stamp <- gets (fun m => lastPinChangeDate (self m)) ;;
  log Debug (MsgPinChanged pin circuitOpen stamp) ;;
  setTimeout (glitchTime cfg) pin stamp.

(** [buttonPushed], from the value read and [config.negateInput]. *)
Definition buttonPushed (cfg : Config) (currentValue : option bool) : bool :=
  let pushed := negb (truthy_boolean currentValue) in
  if negateInput cfg then negb pushed else pushed.

(** [this.lastRang && this.lastRang + this.config.throttleTime >= now] *)
Definition throttled (cfg : Config) (rang : option Z) (now : Z) : bool :=
  truthy_number rang &&
  match rang with
  | Some t => now <=? t + throttleTime cfg
  | None => false
  end.

(** The [try { axios.get(url) } catch (e) { ... }] statement. *)
Definition ringWebhook (url : string) : M unit :=
  emit (AxiosGet url) ;;
  outcome <- gets (fun m => webhook m url) ;;
  match outcome with
  | Returns p => enqueue (AxiosReaction p)
  | Throws e =>
      match response e with
      | Some (status, data) => log Error (MsgWebhookStatus status data)
      | None => log Error (MsgWebhookMessage (message e))
      end
  end.

(** The timer callback from the comparison of the value read onwards. *)
Definition processValue (cfg : Config) (pin : Z) (currentValue : option bool) : M unit :=
  last <- gets (fun m => currentPinValue (self m)) ;;
  if strict_eq currentValue last then
    log Debug (MsgIgnoreSame currentValue last)
  else
    set_currentPinValue currentValue ;;
    let pushed := buttonPushed cfg currentValue in
    mute <- gets (fun m => doorbellMute (self m)) ;;
    (if enableOutput cfg && negb mute then
       log Debug (MsgSettingPin (outputGpioPin cfg) pushed) ;;
       emit (GpioWrite (outputGpioPin cfg) pushed)
     else ret tt) ;;
    if pushed then
      now <- Date_now ;;
      rang <- gets (fun m => lastRang (self m)) ;;
      if throttled cfg rang now then
        log Debug (MsgThrottled pin)
      else
        now' <- Date_now ;;
        set_lastRang (Some now') ;;
        log Info (MsgRang (name cfg)) ;;
        if negb (enableHttpTrigger cfg) || negb (truthy_string (httpTriggerUrl cfg)) then
          log Info MsgForwardHomeKit ;;
          emit (UpdateCharacteristic ProgrammableSwitchEvent_SINGLE_PRESS)
        else
          let url := default EmptyString (httpTriggerUrl cfg) in
          log Info (MsgWebhookRequest url) ;;
          ringWebhook url
    else ret tt.

(** The timer callback, which the log calls [processChange]. *)
Definition processChange (cfg : Config) (pin : Z) (stamp : option Z) : M unit :=
  last <- gets (fun m => lastPinChangeDate (self m)) ;;
  if bool_decide (last ≠ stamp) then
    log Debug MsgIgnoreNotLast
  else
    currentValue <- read pin ;;
    processValue cfg pin currentValue.

(** [handleMuteSet(value)] *)
Definition handleMuteSet (cfg : Config) (value : bool) : M unit :=
  log Debug (MsgSetMute value) ;;
  set_doorbellMute value ;;
  mute <- gets (fun m => doorbellMute (self m)) ;;
  setItemSync doorbellMuteKey mute ;;
  mute' <- gets (fun m => doorbellMute (self m)) ;;
  if negb mute' && enableOutput cfg then
    emit (GpioWrite (outputGpioPin cfg) false)
  else ret tt.

(** [handleMuteGet()] *)
Definition handleMuteGet : M bool :=
  log Debug MsgGetMute ;;
  gets (fun m => doorbellMute (self m)).

(** ** The event loop *)

(** What can happen next: the GPIO driver reports a change, a pending
    timer fires, a pending promise settles, HomeKit writes or reads the
    mute characteristic (its handlers exist only with [enableOutput]), or
    the pins and the network change their behaviour. *)
Inductive Action :=
| PinChanges (pin : Z) (circuitOpen : bool)
| TimerFires (i : nat)
| PromiseSettles (i : nat)
| MuteSet (value : bool)
| MuteGet
| Surroundings (g : Z -> Settled bool) (h : string -> AxiosOutcome).

Definition step (cfg : Config) (a : Action) : M unit :=
  match a with
  | PinChanges pin circuitOpen => handlePinChange cfg pin circuitOpen
  | TimerFires i =>
      t <- gets (fun m => timers m !! i) ;;
      match t with
      | Some t =>
          modify (with_timers (delete i)) ;;
          processChange cfg (timerPin t) (changeTimeStamp t)
      | None => ret tt
      end
  | PromiseSettles i =>
      r <- gets (fun m => reactions m !! i) ;;
      match r with
      | Some r => modify (with_reactions (delete i)) ;; settle r
      | None => ret tt
      end
  | MuteSet value =>
      if enableOutput cfg then handleMuteSet cfg value else ret tt
  | MuteGet =>
      if enableOutput cfg then _ <- handleMuteGet ;; ret tt else ret tt
  | Surroundings g h => modify (with_surroundings g h)
  end.

Fixpoint run (cfg : Config) (acts : list Action) : M unit :=
  match acts with
  | [] => ret tt
  | a :: acts => step cfg a ;; run cfg acts
  end.

(** The machine before the constructor runs. *)
Definition boot (store : gmap string bool) (clk : nat -> Z)
    (g : Z -> Settled bool) (h : string -> AxiosOutcome) : Machine :=
  mkMachine (mkAccessory None false None None) store clk 0%nat g h [] [] [].

(** The machine after the constructor and a sequence of actions. *)
Definition after (cfg : Config) (m0 : Machine) (acts : list Action) : Machine :=
  machine_of ((construct cfg ;; run cfg acts) m0).

(** ** Reading the output *)

Inductive Sink :=
| LocalRing
| RemoteRing (url : string).

Definition pinWrites (out : list Event) : list (Z * bool) :=
  flat_map (fun e => match e with GpioWrite p v => [(p, v)] | _ => [] end) out.

Definition rings (out : list Event) : list Sink :=
  flat_map (fun e =>
    match e with
    | UpdateCharacteristic ProgrammableSwitchEvent_SINGLE_PRESS => [LocalRing]
    | AxiosGet url => [RemoteRing url]
    | _ => []
    end) out.

Definition errorLogs (out : list Event) : list Message :=
  flat_map (fun e => match e with Log Error msg => [msg] | _ => [] end) out.

(** Remote dispatch is configured: the flag is on and a URL is set. *)
Definition remoteConfigured (cfg : Config) : bool :=
  enableHttpTrigger cfg && truthy_string (httpTriggerUrl cfg).

(** [pushed = invertInput ? value : !value], the derivation as the
    specification words it. *)
Definition pushed_spec (invertInput value : bool) : bool :=
  if invertInput then value else negb value.

(** No two readings of the clock are equal. *)
Definition distinct_readings (clk : nat -> Z) : Prop :=
  forall i j : nat, clk i = clk j -> i = j.

(** ** The pending evaluations

    Every pending timer carries the clock reading of the call that
    scheduled it.  [ks] lists, for the pending timers (oldest first), which
    reading of the clock each one carries: these positions increase along
    the list, none comes after the position of the reading held in
    [lastPinChangeDate], and that reading has already been taken. *)
Definition timers_indexed (m : Machine) : Prop :=
  exists ks : list nat,
    changeTimeStamp <$> timers m = (fun k => Some (clock m k)) <$> ks
    /\ StronglySorted lt ks
    /\ match lastPinChangeDate (self m) with
       | Some l =>
           exists kl : nat,
             l = clock m kl /\ (kl < ticks m)%nat /\ Forall (fun k => (k <= kl)%nat) ks
       | None => ks = []
       end.

(** ** Sample configurations and machines *)

Definition sampleConfig : Config :=
  mkConfig "Doorbell" 7 true 11 false 100 1000 false None.

Definition webhookConfig : Config :=
  mkConfig "Doorbell" 7 true 11 false 100 1000 true (Some "http://localhost:8080/ring").

Definition steadyGpio : Z -> Settled bool := fun _ => Fulfilled true.

Definition brokenGpio : Z -> Settled bool :=
  fun _ => Rejected (mkJsError None (Some "Pin has not been exported")).

Definition workingWebhook : string -> AxiosOutcome := fun _ => Returns (Fulfilled tt).

Definition serverError : JsError :=
  mkJsError (Some (500, "Internal Server Error"))
            (Some "Request failed with status code 500").

Definition failingWebhook : string -> AxiosOutcome := fun _ => Returns (Rejected serverError).

(** A clock that advances by 40 ms between two readings, and one that
    stands still. *)
Definition sampleClock (n : nat) : Z := 1000 + 40 * Z.of_nat n.

Definition frozenClock (t : Z) (n : nat) : Z := t.

(** An accessory that rang at 5000 and holds the level [true], evaluated
    when the clock reads [t]. *)
Definition rangAt5000 (t : Z) (h : string -> AxiosOutcome) : Machine :=
  mkMachine (mkAccessory (Some 5000) false (Some 5900) (Some true))
            ∅ (frozenClock t) 0%nat steadyGpio h [] [] [].

(** The same accessory before any ring. *)
Definition neverRang (mute : bool) (h : string -> AxiosOutcome) : Machine :=
  mkMachine (mkAccessory None mute (Some 5900) (Some true))
            ∅ (frozenClock 6000) 0%nat steadyGpio h [] [] [].

(** A machine on which the constructor has not run yet. *)
Definition idle (g : Z -> Settled bool) : Machine :=
  mkMachine (mkAccessory None false None None) ∅ sampleClock 0%nat g workingWebhook
            [] [] [].

(** Two changes reported while the clock reads the same millisecond. *)
Definition sameMillisecond : Machine :=
  after sampleConfig (boot ∅ (frozenClock 1000) steadyGpio workingWebhook)
    [PinChanges 7 false; PinChanges 7 true].

(** A clock set back by 40 ms between two readings. *)
Definition backClock (n : nat) : Z := 5000 - 40 * Z.of_nat n.

(** ** Further readings of the output and of a run *)

Definition pinSetups (out : list Event) : list (Z * Direction) :=
  flat_map (fun e => match e with GpioSetup p d => [(p, d)] | _ => [] end) out.

(** The pin writes that clearing the mute flag causes along a sequence of
    actions. *)
Definition muteClearWrites (cfg : Config) (acts : list Action) : list (Z * bool) :=
  flat_map (fun a =>
    match a with
    | MuteSet false => if enableOutput cfg then [(outputGpioPin cfg, false)] else []
    | _ => []
    end) acts.

(** The clock never goes back. *)
Definition non_decreasing (clk : nat -> Z) : Prop :=
  forall i j : nat, (i <= j)%nat -> clk i <= clk j.

(** Order on change identifiers, [undefined] below every number. *)
Definition stamp_opt_le (a b : option Z) : Prop :=
  match a, b with
  | None, _ => True
  | Some x, Some y => x <= y
  | Some _, None => False
  end.

(** [lastPinChangeDate] is a reading the clock has given. *)
Definition stamp_in_past (m : Machine) : Prop :=
  non_decreasing (clock m)
  /\ match lastPinChangeDate (self m) with
     | Some l => l <= clock m (ticks m)
     | None => True
     end.

(** * Properties *)

(** ** Elementary facts *)

Lemma read_eq (channel : Z) (m : Machine) :
  read channel m =
  (None,
   with_reactions (fun l => l ++ [ReadReaction (length (locals m)) (gpio m channel)])
     (with_locals (fun l => l ++ [None]) m),
   []).
Proof.
  unfold read, bind, declare_local, gets, enqueue, modify, read_local. simpl.
  rewrite lookup_app_r by lia. rewrite Nat.sub_diag. reflexivity.
Qed.

Ltac unfold_M :=
  unfold processValue, ringWebhook, handleMuteSet, handleMuteGet, handlePinChange,
    setTimeout, log, Date_now, getItemSync, setItemSync,
    set_currentPinValue, set_lastRang, set_doorbellMute, set_lastPinChangeDate,
    enqueue, write_local, bind, ret, gets, modify, emit,
    machine_of, events_of, value_of in *.

Lemma settle_read_fulfilled (cell : nat) (val : bool) (m : Machine) :
  (cell < length (locals m))%nat ->
  value_of (read_local cell (machine_of (settle (ReadReaction cell (Fulfilled val)) m)))
  = Some val.
Proof.
  intros Hlt. unfold settle, read_local. unfold_M. simpl.
  rewrite list_lookup_insert_eq by exact Hlt. reflexivity.
Qed.

Lemma processChange_fresh (cfg : Config) (pin : Z) (m : Machine) :
  processChange cfg pin (lastPinChangeDate (self m)) m
  = (_ <- read pin ;; processValue cfg pin None) m.
Proof.
  unfold processChange, bind, gets.
  rewrite bool_decide_eq_false_2 by (intros H; apply H; reflexivity).
  rewrite read_eq.
  destruct (processValue cfg pin None _) as [[u m'] out]. reflexivity.
Qed.

Lemma construct_currentPinValue (cfg : Config) (m : Machine) :
  currentPinValue (self (machine_of (construct cfg m))) = None.
Proof.
  unfold construct, setupGpio. unfold_M. cbn -[read]. rewrite read_eq.
  destruct (enableOutput cfg); reflexivity.
Qed.

Lemma handleMuteSet_effect (cfg : Config) (value : bool) (m : Machine) :
  doorbellMute (self (machine_of (handleMuteSet cfg value m))) = value
  /\ currentPinValue (self (machine_of (handleMuteSet cfg value m)))
     = currentPinValue (self m).
Proof.
  unfold_M. simpl. destruct value, (enableOutput cfg); split; reflexivity.
Qed.

(** ** Button-press derivation *)

(** C8. The derivation of [buttonPushed] from an accepted level [value] and
    the flag [negateInput] is the function [negateInput ? value : !value];
    for the raw level [true] it gives [false] without the flag and [true]
    with it, that is, the flag itself.  It is a function of these two
    values alone. *)
Theorem buttonPushed_spec (cfg : Config) (value : bool) :
  buttonPushed cfg (Some value) = pushed_spec (negateInput cfg) value
  /\ buttonPushed cfg (Some true) = negateInput cfg
  /\ pushed_spec false true = false
  /\ pushed_spec true true = true.
Proof.
  unfold buttonPushed, pushed_spec. simpl.
  destruct (negateInput cfg), value; repeat split; reflexivity.
Qed.

(** ** The pin-read helper *)

(** C9. [read] returns [undefined] for every channel, whatever the pin does:
    the local variable is assigned only by the reaction that [read] leaves
    pending, which runs after [read] has returned (a fulfilled read then
    stores its value in the variable, too late).  So the constructor seeds
    [currentPinValue] with [undefined], and an evaluation that passes the
    staleness check goes on with the value [undefined]. *)
Theorem read_always_undefined (cfg : Config) (channel : Z) (m : Machine) :
  value_of (read channel m) = None
  /\ reactions (machine_of (read channel m))
     = reactions m ++ [ReadReaction (length (locals m)) (gpio m channel)]
  /\ (forall val : bool,
       value_of (read_local (length (locals m))
         (machine_of (settle (ReadReaction (length (locals m)) (Fulfilled val))
                        (machine_of (read channel m)))))
       = Some val)
  /\ currentPinValue (self (machine_of (construct cfg m))) = None
  /\ processChange cfg channel (lastPinChangeDate (self m)) m
     = (_ <- read channel ;; processValue cfg channel None) m.
Proof.
  split; [| split; [| split; [| split]]].
  - rewrite read_eq. reflexivity.
  - rewrite read_eq. reflexivity.
  - intros val. apply settle_read_fulfilled.
    rewrite read_eq. unfold machine_of. simpl. rewrite length_app. simpl. lia.
  - apply construct_currentPinValue.
  - apply processChange_fresh.
Qed.

(** ** Mute control *)

(** C7. [handleMuteSet value] sets the mute flag to [value], stores the same
    value under the mute key (replacing what was there, leaving the other
    keys alone), touches no other field, and writes the output pin exactly
    when [value] is [false] and the output is enabled: then once, with
    [false]. *)
Theorem handleMuteSet_spec (cfg : Config) (value : bool) (m : Machine) :
  let r := handleMuteSet cfg value m in
  doorbellMute (self (machine_of r)) = value
  /\ storage (machine_of r) = <[doorbellMuteKey := value]> (storage m)
  /\ storage (machine_of r) !! doorbellMuteKey = Some value
  /\ lastRang (self (machine_of r)) = lastRang (self m)
  /\ lastPinChangeDate (self (machine_of r)) = lastPinChangeDate (self m)
  /\ currentPinValue (self (machine_of r)) = currentPinValue (self m)
  /\ pinWrites (events_of r)
     = (if negb value && enableOutput cfg then [(outputGpioPin cfg, false)] else [])
  /\ value_of (handleMuteGet (machine_of r)) = value.
Proof.
  unfold_M. simpl.
  destruct value, (enableOutput cfg); simpl;
    repeat split; try reflexivity; apply lookup_insert_eq.
Qed.

(** ** The evaluation of an accepted transition *)

Ltac split_cases :=
  repeat (simpl;
    match goal with
    | |- context [if ?b then _ else _] => destruct b eqn:?
    | |- context [match webhook ?m ?u with _ => _ end] => destruct (webhook m u) eqn:?
    | |- context [match response ?e with _ => _ end] =>
        destruct (response e) as [[? ?]|] eqn:?
    end).

(** An accepted press that is not throttled rings, through the sink the
    configuration selects. *)
Lemma processValue_rings (cfg : Config) (pin : Z) (cv : option bool) (m : Machine) :
  strict_eq cv (currentPinValue (self m)) = false ->
  buttonPushed cfg cv = true ->
  throttled cfg (lastRang (self m)) (clock m (ticks m)) = false ->
  lastRang (self (machine_of (processValue cfg pin cv m))) = Some (clock m (S (ticks m)))
  /\ rings (events_of (processValue cfg pin cv m))
     = [if remoteConfigured cfg
        then RemoteRing (default EmptyString (httpTriggerUrl cfg))
        else LocalRing].
Proof.
  intros Hacc Hp Ht. unfold remoteConfigured. unfold_M. rewrite Hacc, Hp. simpl.
  destruct (enableHttpTrigger cfg), (truthy_string (httpTriggerUrl cfg));
    destruct (enableOutput cfg), (doorbellMute (self m)); simpl;
    rewrite Ht; split_cases; split; reflexivity.
Qed.

(** An accepted press inside the throttle window changes nothing but the
    accepted level and does not ring. *)
Lemma processValue_throttled (cfg : Config) (pin : Z) (cv : option bool) (m : Machine) :
  strict_eq cv (currentPinValue (self m)) = false ->
  buttonPushed cfg cv = true ->
  throttled cfg (lastRang (self m)) (clock m (ticks m)) = true ->
  lastRang (self (machine_of (processValue cfg pin cv m))) = lastRang (self m)
  /\ rings (events_of (processValue cfg pin cv m)) = []
  /\ pinWrites (events_of (processValue cfg pin cv m))
     = (if enableOutput cfg && negb (doorbellMute (self m))
        then [(outputGpioPin cfg, true)] else []).
Proof.
  intros Hacc Hp Ht. unfold_M. rewrite Hacc, Hp. simpl.
  destruct (enableOutput cfg), (doorbellMute (self m)); simpl;
    rewrite Ht; repeat split; reflexivity.
Qed.

(** What an accepted transition writes to the output pin. *)
Lemma processValue_pinWrites (cfg : Config) (pin : Z) (cv : option bool) (m : Machine) :
  strict_eq cv (currentPinValue (self m)) = false ->
  pinWrites (events_of (processValue cfg pin cv m))
  = (if enableOutput cfg && negb (doorbellMute (self m))
     then [(outputGpioPin cfg, buttonPushed cfg cv)] else []).
Proof.
  intros Hacc. unfold_M. rewrite Hacc. simpl.
  destruct (enableOutput cfg), (doorbellMute (self m)); simpl;
    split_cases; reflexivity.
Qed.

Lemma throttled_true_iff (cfg : Config) (rang : option Z) (now : Z) :
  throttled cfg rang now = true <->
  exists t0, rang = Some t0 /\ t0 <> 0 /\ now - t0 <= throttleTime cfg.
Proof.
  unfold throttled, truthy_number. destruct rang as [t0|]; simpl.
  - rewrite andb_true_iff, negb_true_iff, Z.eqb_neq, Z.leb_le. split.
    + intros [H0 Hle]. exists t0. repeat split; [exact H0 | lia].
    + intros (t & Heq & H0 & Hle). injection Heq as ->. split; [exact H0 | lia].
  - split; [discriminate | intros (t & Heq & _); discriminate].
Qed.

(** X16. For an evaluation that accepts a level and derives
    [pushed = true], on any state of the object, with [now] the clock
    reading of the throttle check: if the ring time is a [t0] other than 0
    and [now - t0 <= throttleTime] (equality included), no sink is called
    and [lastRang] keeps its value; if [now - t0 > throttleTime], or the
    ring time is undefined, exactly one sink is called and [lastRang]
    becomes the next clock reading. *)
Theorem throttle_boundary (cfg : Config) (pin : Z) (cv : option bool) (m : Machine) :
  strict_eq cv (currentPinValue (self m)) = false ->
  buttonPushed cfg cv = true ->
  let now := clock m (ticks m) in
  let r := processValue cfg pin cv m in
  (forall t0, lastRang (self m) = Some t0 -> t0 <> 0 -> now - t0 <= throttleTime cfg ->
     lastRang (self (machine_of r)) = lastRang (self m)
     /\ rings (events_of r) = [])
  /\ ((lastRang (self m) = None
       \/ exists t0, lastRang (self m) = Some t0 /\ now - t0 > throttleTime cfg) ->
     lastRang (self (machine_of r)) = Some (clock m (S (ticks m)))
     /\ length (rings (events_of r)) = 1%nat).
Proof.
  intros Hacc Hp now r. split.
  - intros t0 Ht0 Hnz Hle.
    assert (Ht : throttled cfg (lastRang (self m)) now = true).
    { apply throttled_true_iff. exists t0. auto. }
    destruct (processValue_throttled cfg pin cv m Hacc Hp Ht) as (H1 & H2 & _).
    split; assumption.
  - intros Hno.
    assert (Ht : throttled cfg (lastRang (self m)) now = false).
    { apply not_true_is_false. intros Hthr.
      apply throttled_true_iff in Hthr. destruct Hthr as (t & Heq & _ & Hle).
      destruct Hno as [Hnone | (t0 & Heq0 & Hgt)].
      - congruence.
      - rewrite Heq in Heq0. injection Heq0 as ->. lia. }
    destruct (processValue_rings cfg pin cv m Hacc Hp Ht) as (H1 & H2).
    split; [exact H1 |]. subst r. rewrite H2. reflexivity.
Qed.

Lemma throttle_boundary_witness :
  (lastRang (self (machine_of
      (processValue sampleConfig 7 None (rangAt5000 6000 workingWebhook))))
   = lastRang (self (rangAt5000 6000 workingWebhook))
   /\ rings (events_of
      (processValue sampleConfig 7 None (rangAt5000 6000 workingWebhook))) = [])
  /\ (lastRang (self (machine_of
      (processValue sampleConfig 7 None (rangAt5000 6001 workingWebhook))))
   = Some 6001
   /\ length (rings (events_of
      (processValue sampleConfig 7 None (rangAt5000 6001 workingWebhook)))) = 1%nat).
Proof.
  split.
  - apply (proj1 (throttle_boundary sampleConfig 7 None
                    (rangAt5000 6000 workingWebhook) eq_refl eq_refl) 5000).
    + reflexivity.
    + lia.
    + simpl. unfold frozenClock. lia.
  - apply (proj2 (throttle_boundary sampleConfig 7 None
                    (rangAt5000 6001 workingWebhook) eq_refl eq_refl)).
    right. exists 5000. split; [reflexivity | simpl; unfold frozenClock; lia].
Defined.

(** An accepted release changes the accepted level and nothing else: no
    sink, no clock reading, no new ring time. *)
Lemma processValue_release (cfg : Config) (pin : Z) (cv : option bool) (m : Machine) :
  strict_eq cv (currentPinValue (self m)) = false ->
  buttonPushed cfg cv = false ->
  rings (events_of (processValue cfg pin cv m)) = []
  /\ lastRang (self (machine_of (processValue cfg pin cv m))) = lastRang (self m)
  /\ ticks (machine_of (processValue cfg pin cv m)) = ticks m
  /\ currentPinValue (self (machine_of (processValue cfg pin cv m))) = cv.
Proof.
  intros Hacc Hp. unfold_M. rewrite Hacc, Hp. simpl.
  destruct (enableOutput cfg), (doorbellMute (self m)); simpl;
    repeat split; reflexivity.
Qed.

Lemma remoteConfigured_url (cfg : Config) :
  remoteConfigured cfg = true ->
  exists url, httpTriggerUrl cfg = Some url /\ url <> EmptyString.
Proof.
  unfold remoteConfigured, truthy_string. intros H.
  apply andb_true_iff in H. destruct H as [_ H].
  destruct (httpTriggerUrl cfg) as [[|c url]|]; try discriminate.
  exists (String c url). split; [reflexivity | discriminate].
Qed.

(** C5. An accepted press that the throttle lets through calls exactly one
    sink: the local one when remote dispatch is not configured (flag off,
    or no URL), the remote one, with the configured URL, otherwise.  An
    accepted transition with [pushed = false] calls no sink, does not read
    the clock and leaves [lastRang] alone. *)
Theorem dispatch_exclusive (cfg : Config) (pin : Z) (cv : option bool) (m : Machine) :
  strict_eq cv (currentPinValue (self m)) = false ->
  let r := processValue cfg pin cv m in
  (buttonPushed cfg cv = true ->
   throttled cfg (lastRang (self m)) (clock m (ticks m)) = false ->
   length (rings (events_of r)) = 1%nat
   /\ (remoteConfigured cfg = false -> rings (events_of r) = [LocalRing])
   /\ (remoteConfigured cfg = true ->
       exists url, httpTriggerUrl cfg = Some url /\ rings (events_of r) = [RemoteRing url]))
  /\ (buttonPushed cfg cv = false ->
      rings (events_of r) = []
      /\ lastRang (self (machine_of r)) = lastRang (self m)
      /\ ticks (machine_of r) = ticks m).
Proof.
  intros Hacc r. split.
  - intros Hp Ht.
    destruct (processValue_rings cfg pin cv m Hacc Hp Ht) as [_ Hr].
    subst r. rewrite Hr. split; [reflexivity | split].
    + intros Hc. rewrite Hc. reflexivity.
    + intros Hc. rewrite Hc.
      destruct (remoteConfigured_url cfg Hc) as (url & Hurl & _).
      exists url. rewrite Hurl. split; reflexivity.
  - intros Hp.
    destruct (processValue_release cfg pin cv m Hacc Hp) as (H1 & H2 & H3 & _).
    repeat split; assumption.
Qed.

Lemma dispatch_exclusive_witness :
  (rings (events_of (processValue sampleConfig 7 None (neverRang false workingWebhook)))
   = [LocalRing])
  /\ (exists url, httpTriggerUrl webhookConfig = Some url
      /\ rings (events_of (processValue webhookConfig 7 None (neverRang false workingWebhook)))
         = [RemoteRing url])
  /\ (rings (events_of (processValue sampleConfig 7 (Some true) (idle steadyGpio))) = []
      /\ lastRang (self (machine_of (processValue sampleConfig 7 (Some true) (idle steadyGpio))))
         = lastRang (self (idle steadyGpio))
      /\ ticks (machine_of (processValue sampleConfig 7 (Some true) (idle steadyGpio)))
         = ticks (idle steadyGpio)).
Proof.
  split; [| split].
  - apply (proj1 (dispatch_exclusive sampleConfig 7 None
                    (neverRang false workingWebhook) eq_refl) eq_refl eq_refl).
    reflexivity.
  - apply (proj1 (dispatch_exclusive webhookConfig 7 None
                    (neverRang false workingWebhook) eq_refl) eq_refl eq_refl).
    reflexivity.
  - apply (proj2 (dispatch_exclusive sampleConfig 7 (Some true)
                    (idle steadyGpio) eq_refl)).
    reflexivity.
Defined.

(** ** Output mirroring *)

(** C6. On an accepted transition, nothing is written to the output pin
    while the mute flag is set, whatever [pushed] is; with the flag clear
    and the output enabled, one write sets the output pin to [pushed].  The
    flag is the one in force at the transition: after [handleMuteSet value]
    the next accepted transition follows [value]. *)
Theorem mute_gating (cfg : Config) (pin : Z) (cv : option bool) (m : Machine) :
  strict_eq cv (currentPinValue (self m)) = false ->
  (doorbellMute (self m) = true ->
     pinWrites (events_of (processValue cfg pin cv m)) = [])
  /\ (doorbellMute (self m) = false -> enableOutput cfg = true ->
     pinWrites (events_of (processValue cfg pin cv m))
     = [(outputGpioPin cfg, buttonPushed cfg cv)])
  /\ (forall value : bool,
     pinWrites (events_of
       (processValue cfg pin cv (machine_of (handleMuteSet cfg value m))))
     = if enableOutput cfg && negb value
       then [(outputGpioPin cfg, buttonPushed cfg cv)] else []).
Proof.
  intros Hacc. split; [| split].
  - intros Hm. rewrite processValue_pinWrites by exact Hacc.
    rewrite Hm, andb_false_r. reflexivity.
  - intros Hm Ho. rewrite processValue_pinWrites by exact Hacc.
    rewrite Hm, Ho. reflexivity.
  - intros value.
    pose proof (handleMuteSet_effect cfg value m) as (Hmute & Hcur).
    rewrite processValue_pinWrites by (rewrite Hcur; exact Hacc).
    rewrite Hmute. reflexivity.
Qed.

Lemma mute_gating_witness :
  pinWrites (events_of (processValue sampleConfig 7 None (neverRang true workingWebhook)))
  = []
  /\ pinWrites (events_of (processValue sampleConfig 7 None (neverRang false workingWebhook)))
     = [(outputGpioPin sampleConfig, buttonPushed sampleConfig None)]
  /\ pinWrites (events_of
       (processValue sampleConfig 7 None
          (machine_of (handleMuteSet sampleConfig true (neverRang false workingWebhook)))))
     = [].
Proof.
  split; [| split].
  - apply (proj1 (mute_gating sampleConfig 7 None (neverRang true workingWebhook) eq_refl)).
    reflexivity.
  - apply (proj1 (proj2 (mute_gating sampleConfig 7 None
                           (neverRang false workingWebhook) eq_refl)));
      reflexivity.
  - apply (proj2 (proj2 (mute_gating sampleConfig 7 None
                           (neverRang false workingWebhook) eq_refl)) true).
Defined.

(** C10. The output pin is written before the throttle check: an accepted
    press with the output enabled and the mute flag clear sets the output
    pin to [pushed] (here [true]) also when the throttle then suppresses
    the ring, which calls no sink and keeps [lastRang]. *)
Theorem mirroring_precedes_throttle (cfg : Config) (pin : Z) (cv : option bool)
    (m : Machine) :
  strict_eq cv (currentPinValue (self m)) = false ->
  buttonPushed cfg cv = true ->
  enableOutput cfg = true ->
  doorbellMute (self m) = false ->
  throttled cfg (lastRang (self m)) (clock m (ticks m)) = true ->
  let r := processValue cfg pin cv m in
  pinWrites (events_of r) = [(outputGpioPin cfg, buttonPushed cfg cv)]
  /\ rings (events_of r) = []
  /\ lastRang (self (machine_of r)) = lastRang (self m).
Proof.
  intros Hacc Hp Ho Hm Ht r.
  destruct (processValue_throttled cfg pin cv m Hacc Hp Ht) as (H1 & H2 & H3).
  subst r. rewrite H3, Ho, Hm, Hp. repeat split; [exact H2 | exact H1].
Qed.

Lemma mirroring_precedes_throttle_witness :
  pinWrites (events_of (processValue sampleConfig 7 None (rangAt5000 5400 workingWebhook)))
  = [(outputGpioPin sampleConfig, buttonPushed sampleConfig None)]
  /\ rings (events_of (processValue sampleConfig 7 None (rangAt5000 5400 workingWebhook)))
     = []
  /\ lastRang (self (machine_of
        (processValue sampleConfig 7 None (rangAt5000 5400 workingWebhook))))
     = lastRang (self (rangAt5000 5400 workingWebhook)).
Proof.
  apply (mirroring_precedes_throttle sampleConfig 7 None (rangAt5000 5400 workingWebhook));
    reflexivity.
Defined.

(** ** Remote dispatch *)

(** X17. On any state of the object, an accepted press that is not
    throttled, with remote dispatch configured and a request that fails by
    rejecting (network error, non-2xx answer): the [catch] block is not
    entered, as [axios.get] returned normally; the evaluation logs no
    error and leaves the promise pending without a handler.  When the
    promise settles, the runtime reports an unhandled rejection; nothing
    is logged, and the accessory is not modified. *)
Theorem webhook_rejection_unhandled (cfg : Config) (pin : Z) (cv : option bool)
    (m : Machine) (url : string) (e : JsError) :
  strict_eq cv (currentPinValue (self m)) = false ->
  buttonPushed cfg cv = true ->
  throttled cfg (lastRang (self m)) (clock m (ticks m)) = false ->
  enableHttpTrigger cfg = true ->
  httpTriggerUrl cfg = Some url ->
  url <> EmptyString ->
  webhook m url = Returns (Rejected e) ->
  let r := processValue cfg pin cv m in
  rings (events_of r) = [RemoteRing url]
  /\ errorLogs (events_of r) = []
  /\ reactions (machine_of r) = reactions m ++ [AxiosReaction (Rejected e)]
  /\ forall m' : Machine,
       settle (AxiosReaction (Rejected e)) m' = (tt, m', [UnhandledRejection e])
       /\ errorLogs (events_of (settle (AxiosReaction (Rejected e)) m')) = [].
Proof.
  intros Hacc Hp Ht Hflag Hurl Hne Hweb r. subst r.
  destruct url as [|c url]; [congruence |].
  unfold_M. rewrite Hacc, Hp, Hflag, Hurl. simpl.
  destruct (enableOutput cfg), (doorbellMute (self m)); simpl;
    rewrite Ht; simpl; rewrite Hweb; simpl;
    (repeat split; try reflexivity).
Qed.

Lemma webhook_rejection_unhandled_witness :
  rings (events_of (processValue webhookConfig 7 None (neverRang false failingWebhook)))
  = [RemoteRing "http://localhost:8080/ring"]
  /\ errorLogs (events_of (processValue webhookConfig 7 None (neverRang false failingWebhook)))
     = []
  /\ reactions (machine_of
        (processValue webhookConfig 7 None (neverRang false failingWebhook)))
     = reactions (neverRang false failingWebhook) ++ [AxiosReaction (Rejected serverError)]
  /\ forall m' : Machine,
       settle (AxiosReaction (Rejected serverError)) m'
       = (tt, m', [UnhandledRejection serverError])
       /\ errorLogs (events_of (settle (AxiosReaction (Rejected serverError)) m')) = [].
Proof.
  apply (webhook_rejection_unhandled webhookConfig 7 None
           (neverRang false failingWebhook) "http://localhost:8080/ring" serverError);
    try reflexivity.
  discriminate.
Defined.

(** ** The event loop: what every step preserves *)

Lemma after_eq (cfg : Config) (m0 : Machine) (acts : list Action) :
  after cfg m0 acts = machine_of (run cfg acts (machine_of (construct cfg m0))).
Proof.
  unfold after, bind, machine_of.
  destruct (construct cfg m0) as [[u m1] out1]. simpl.
  destruct (run cfg acts m1) as [[u' m2] out2]. reflexivity.
Qed.

Lemma run_cons (cfg : Config) (a : Action) (acts : list Action) (m : Machine) :
  machine_of (run cfg (a :: acts) m) = machine_of (run cfg acts (machine_of (step cfg a m))).
Proof.
  simpl. unfold bind, machine_of.
  destruct (step cfg a m) as [[u m1] out1]. simpl.
  destruct (run cfg acts m1) as [[u' m2] out2]. reflexivity.
Qed.

(** An invariant of the steps holds after the constructor and any
    sequence of actions. *)
Lemma after_invariant (P : Machine -> Prop) (cfg : Config) (m0 : Machine) :
  P (machine_of (construct cfg m0)) ->
  (forall a m, P m -> P (machine_of (step cfg a m))) ->
  forall acts, P (after cfg m0 acts).
Proof.
  intros Hinit Hstep acts. rewrite after_eq.
  generalize dependent (machine_of (construct cfg m0)).
  induction acts as [|a acts IH]; intros m Hm.
  - exact Hm.
  - rewrite run_cons. apply IH. apply Hstep. exact Hm.
Qed.

(** What an evaluation leaves alone, whatever it does. *)
Lemma processValue_frame (cfg : Config) (pin : Z) (cv : option bool) (m : Machine) :
  let m' := machine_of (processValue cfg pin cv m) in
  timers m' = timers m
  /\ lastPinChangeDate (self m') = lastPinChangeDate (self m)
  /\ clock m' = clock m
  /\ (ticks m <= ticks m')%nat.
Proof.
  unfold_M. split_cases; repeat split; try reflexivity; simpl; lia.
Qed.

Lemma processChange_stale (cfg : Config) (pin : Z) (stamp : option Z) (m : Machine) :
  lastPinChangeDate (self m) <> stamp ->
  processChange cfg pin stamp m = (tt, m, [Log Debug MsgIgnoreNotLast]).
Proof.
  intros Hne. unfold processChange, bind, gets, log, emit.
  rewrite bool_decide_eq_true_2 by exact Hne. reflexivity.
Qed.

Lemma processChange_frame (cfg : Config) (pin : Z) (stamp : option Z) (m : Machine) :
  let m' := machine_of (processChange cfg pin stamp m) in
  timers m' = timers m
  /\ lastPinChangeDate (self m') = lastPinChangeDate (self m)
  /\ clock m' = clock m
  /\ (ticks m <= ticks m')%nat.
Proof.
  destruct (decide (lastPinChangeDate (self m) = stamp)) as [<- | Hne].
  - rewrite processChange_fresh. unfold bind. rewrite read_eq.
    pose proof (processValue_frame cfg pin None
      (with_reactions (fun l => l ++ [ReadReaction (length (locals m)) (gpio m pin)])
         (with_locals (fun l => l ++ [None]) m))) as Hf.
    unfold machine_of in *.
    destruct (processValue cfg pin None _) as [[u m1] out]. simpl in *. exact Hf.
  - rewrite processChange_stale by exact Hne. unfold machine_of. simpl.
    repeat split; try reflexivity.
Qed.

(** While the accepted level is [undefined], an evaluation stops at the
    latest at the comparison with the value read. *)
Lemma processChange_undefined (cfg : Config) (pin : Z) (stamp : option Z) (m : Machine) :
  currentPinValue (self m) = None ->
  let r := processChange cfg pin stamp m in
  self (machine_of r) = self m
  /\ pinWrites (events_of r) = []
  /\ rings (events_of r) = []
  /\ errorLogs (events_of r) = [].
Proof.
  intros Hcur.
  destruct (decide (lastPinChangeDate (self m) = stamp)) as [<- | Hne].
  - rewrite processChange_fresh. unfold bind. rewrite read_eq.
    unfold_M. simpl. rewrite Hcur. simpl. repeat split; reflexivity.
  - rewrite processChange_stale by exact Hne. simpl. repeat split; reflexivity.
Qed.

Lemma settle_self (r : Reaction) (m : Machine) :
  self (machine_of (settle r m)) = self m
  /\ timers (machine_of (settle r m)) = timers m
  /\ clock (machine_of (settle r m)) = clock m
  /\ ticks (machine_of (settle r m)) = ticks m.
Proof.
  destruct r as [cell [val | err] | [u | e]]; unfold settle; unfold_M; simpl;
    repeat split; reflexivity.
Qed.

Lemma step_currentPinValue (cfg : Config) (a : Action) (m : Machine) :
  currentPinValue (self m) = None ->
  currentPinValue (self (machine_of (step cfg a m))) = None.
Proof.
  intros Hcur. destruct a as [pin co | i | i | value | | g h]; simpl.
  - unfold_M. simpl. exact Hcur.
  - unfold bind, gets. destruct (timers m !! i) as [t|]; [| exact Hcur].
    unfold modify.
    pose proof (processChange_undefined cfg (timerPin t) (changeTimeStamp t)
                  (with_timers (delete i) m) Hcur) as [Hs _].
    unfold machine_of in *.
    destruct (processChange cfg _ _ _) as [[u m1] out]. simpl in *.
    rewrite Hs. exact Hcur.
  - unfold bind, gets. destruct (reactions m !! i) as [r|]; [| exact Hcur].
    unfold modify.
    pose proof (settle_self r (with_reactions (delete i) m)) as [Hs _].
    unfold machine_of in *.
    destruct (settle r _) as [[u m1] out]. simpl in *.
    rewrite Hs. exact Hcur.
  - destruct (enableOutput cfg) eqn:Ho; [| exact Hcur].
    unfold_M. simpl. rewrite Ho. destruct value; exact Hcur.
  - destruct (enableOutput cfg); exact Hcur.
  - exact Hcur.
Qed.

(** The accepted level is [undefined] at every moment of every run. *)
Lemma after_currentPinValue (cfg : Config) (m0 : Machine) (acts : list Action) :
  currentPinValue (self (after cfg m0 acts)) = None.
Proof.
  apply (after_invariant (fun m => currentPinValue (self m) = None)).
  - apply construct_currentPinValue.
  - intros a m. apply step_currentPinValue.
Qed.

Lemma step_TimerFires (cfg : Config) (i : nat) (t : Timer) (m : Machine) :
  timers m !! i = Some t ->
  step cfg (TimerFires i) m
  = processChange cfg (timerPin t) (changeTimeStamp t) (with_timers (delete i) m).
Proof.
  intros Hi. simpl. unfold bind, gets, modify. rewrite Hi.
  destruct (processChange cfg _ _ _) as [[u m1] out]. reflexivity.
Qed.

(** Hence no evaluation of any run gets past that comparison: none changes
    a field, writes a pin or calls a sink. *)
Lemma evaluation_never_accepts (cfg : Config) (m0 : Machine) (acts : list Action)
    (i : nat) :
  let r := step cfg (TimerFires i) (after cfg m0 acts) in
  self (machine_of r) = self (after cfg m0 acts)
  /\ pinWrites (events_of r) = []
  /\ rings (events_of r) = [].
Proof.
  pose proof (after_currentPinValue cfg m0 acts) as Hcur.
  destruct (timers (after cfg m0 acts) !! i) as [t|] eqn:Hi.
  - rewrite (step_TimerFires cfg i t _ Hi).
    destruct (processChange_undefined cfg (timerPin t) (changeTimeStamp t)
                (with_timers (delete i) (after cfg m0 acts)) Hcur) as (Hs & Hw & Hr & _).
    repeat split; assumption.
  - simpl. unfold bind, gets. rewrite Hi. repeat split; reflexivity.
Qed.

(** ** Failed reads *)

(** C3. At any moment of any run, when a pending evaluation fires, is the
    current one and the read of the input pin fails, no field of the
    accessory changes (so the accepted level stays as it was), no pin is
    written and no sink is called.  The evaluation returns normally and
    leaves the rejected promise to its [catch] handler, which logs the
    error when the event loop gets to it and touches no field either. *)
Theorem failed_read_is_indeterminate (cfg : Config) (m0 : Machine)
    (acts : list Action) (i : nat) (t : Timer) (err : JsError) :
  let m := after cfg m0 acts in
  timers m !! i = Some t ->
  changeTimeStamp t = lastPinChangeDate (self m) ->
  gpio m (timerPin t) = Rejected err ->
  let r := step cfg (TimerFires i) m in
  self (machine_of r) = self m
  /\ pinWrites (events_of r) = []
  /\ rings (events_of r) = []
  /\ reactions (machine_of r)
     = reactions m ++ [ReadReaction (length (locals m)) (Rejected err)]
  /\ forall m' : Machine,
       events_of (settle (ReadReaction (length (locals m)) (Rejected err)) m')
       = [Log Error (MsgErr err)]
       /\ self (machine_of (settle (ReadReaction (length (locals m)) (Rejected err)) m'))
          = self m'.
Proof.
  intros m Hi Hstamp Hfail r.
  pose proof (after_currentPinValue cfg m0 acts) as Hcur. fold m in Hcur.
  subst r. rewrite (step_TimerFires cfg i t m Hi).
  destruct (processChange_undefined cfg (timerPin t) (changeTimeStamp t)
              (with_timers (delete i) m) Hcur) as (Hs & Hw & Hr & _).
  repeat split; try assumption.
  rewrite Hstamp.
  change (lastPinChangeDate (self m))
    with (lastPinChangeDate (self (with_timers (delete i) m))).
  rewrite processChange_fresh. unfold bind. rewrite read_eq.
  unfold_M. simpl. rewrite Hcur, Hfail. reflexivity.
Qed.

Lemma failed_read_is_indeterminate_witness :
  self (machine_of
    (step sampleConfig (TimerFires 0)
       (after sampleConfig (idle brokenGpio) [PinChanges 7 false])))
  = self (after sampleConfig (idle brokenGpio) [PinChanges 7 false])
  /\ pinWrites (events_of
       (step sampleConfig (TimerFires 0)
          (after sampleConfig (idle brokenGpio) [PinChanges 7 false]))) = []
  /\ rings (events_of
       (step sampleConfig (TimerFires 0)
          (after sampleConfig (idle brokenGpio) [PinChanges 7 false]))) = [].
Proof.
  pose proof (failed_read_is_indeterminate sampleConfig (idle brokenGpio)
                [PinChanges 7 false] 0%nat (mkTimer 100 7 (Some 1000))
                (mkJsError None (Some "Pin has not been exported"))
                eq_refl eq_refl eq_refl) as (H1 & H2 & H3 & _).
  repeat split; assumption.
Defined.

(** ** Staleness *)

Lemma handlePinChange_eq (cfg : Config) (pin : Z) (circuitOpen : bool) (m : Machine) :
  handlePinChange cfg pin circuitOpen m
  = (tt,
     with_timers (fun l => l ++ [mkTimer (glitchTime cfg) pin (Some (clock m (ticks m)))])
       (with_self (fun a => mkAccessory (lastRang a) (doorbellMute a)
                              (Some (clock m (ticks m))) (currentPinValue a))
          (with_ticks S m)),
     [Log Debug (MsgPinChanged pin circuitOpen (Some (clock m (ticks m))))]).
Proof. reflexivity. Qed.

Lemma StronglySorted_delete {A} (R : A -> A -> Prop) (l : list A) (i : nat) :
  StronglySorted R l -> StronglySorted R (delete i l).
Proof.
  intros Hs. revert i. induction Hs as [|x l Hs IH Hx]; intros i.
  - destruct i; constructor.
  - destruct i as [|i]; simpl.
    + exact Hs.
    + constructor; [apply IH | apply Forall_delete; exact Hx].
Qed.

Lemma StronglySorted_lookup {A} (R : A -> A -> Prop) (l : list A) :
  StronglySorted R l ->
  forall (i j : nat) (x y : A),
    (i < j)%nat -> l !! i = Some x -> l !! j = Some y -> R x y.
Proof.
  induction 1 as [|a l Hs IH Ha]; intros i j x y Hij Hi Hj.
  - destruct i; discriminate.
  - destruct j as [|j]; [lia |]. simpl in Hj. destruct i as [|i]; simpl in Hi.
    + injection Hi as <-. rewrite Forall_forall in Ha. apply Ha.
      apply list_elem_of_lookup. exists j. exact Hj.
    + apply (IH i j); [lia | exact Hi | exact Hj].
Qed.

Lemma timers_indexed_frame (m m' : Machine) :
  timers m' = timers m ->
  lastPinChangeDate (self m') = lastPinChangeDate (self m) ->
  clock m' = clock m ->
  (ticks m <= ticks m')%nat ->
  timers_indexed m -> timers_indexed m'.
Proof.
  intros Ht Hl Hc Hk (ks & Hmap & Hs & Hlast). exists ks.
  rewrite Ht, Hl, Hc. repeat split; try assumption.
  destruct (lastPinChangeDate (self m)) as [l|]; [| exact Hlast].
  destruct Hlast as (kl & Hkl & Hlt & Hall).
  exists kl. repeat split; [exact Hkl | lia | exact Hall].
Qed.

Lemma boot_timers_indexed (store : gmap string bool) (clk : nat -> Z)
    (g : Z -> Settled bool) (h : string -> AxiosOutcome) :
  timers_indexed (boot store clk g h).
Proof.
  exists []. simpl. repeat split. constructor.
Qed.

Lemma construct_frame (cfg : Config) (m : Machine) :
  let m' := machine_of (construct cfg m) in
  timers m' = timers m
  /\ lastPinChangeDate (self m') = lastPinChangeDate (self m)
  /\ clock m' = clock m
  /\ (ticks m <= ticks m')%nat.
Proof.
  unfold construct, setupGpio. unfold_M. cbn -[read]. rewrite read_eq.
  destruct (enableOutput cfg); simpl; repeat split; reflexivity.
Qed.

Lemma timers_indexed_lookup (m : Machine) (ks : list nat) (i : nat) (t : Timer) :
  changeTimeStamp <$> timers m = (fun k => Some (clock m k)) <$> ks ->
  timers m !! i = Some t ->
  exists k : nat, ks !! i = Some k /\ changeTimeStamp t = Some (clock m k).
Proof.
  intros Hmap Hi.
  assert (Hl : (changeTimeStamp <$> timers m) !! i = Some (changeTimeStamp t))
    by (rewrite list_lookup_fmap, Hi; reflexivity).
  rewrite Hmap, list_lookup_fmap in Hl.
  destruct (ks !! i) as [k|]; [| discriminate].
  exists k. split; [reflexivity |]. simpl in Hl. congruence.
Qed.

Lemma step_timers_indexed (cfg : Config) (a : Action) (m : Machine) :
  timers_indexed m -> timers_indexed (machine_of (step cfg a m)).
Proof.
  intros Hind. destruct a as [pin co | i | i | value | | g h]; simpl.
  - rewrite handlePinChange_eq. unfold machine_of. simpl.
    destruct Hind as (ks & Hmap & Hs & Hlast).
    assert (Hbelow : Forall (fun k => (k < ticks m)%nat) ks).
    { destruct (lastPinChangeDate (self m)) as [l|].
      - destruct Hlast as (kl & _ & Hlt & Hall).
        eapply Forall_impl; [exact Hall |]. intros k Hk. simpl in Hk. lia.
      - subst ks. constructor. }
    exists (ks ++ [ticks m]). simpl. split; [| split].
    + rewrite !fmap_app, Hmap. reflexivity.
    + apply StronglySorted_app. repeat split.
      * intros k1 k2 H1 H2. apply list_elem_of_singleton in H2. subst k2.
        rewrite Forall_forall in Hbelow. apply Hbelow. exact H1.
      * exact Hs.
      * repeat constructor.
    + exists (ticks m). repeat split; [lia |].
      apply Forall_app. split.
      * eapply Forall_impl; [exact Hbelow |]. intros k Hk. simpl in Hk. lia.
      * constructor; [lia | constructor].
  - unfold bind, gets. destruct (timers m !! i) as [t|]; [| exact Hind].
    unfold modify.
    pose proof (processChange_frame cfg (timerPin t) (changeTimeStamp t)
                  (with_timers (delete i) m)) as (Ht & Hl & Hc & Hk).
    unfold machine_of in *.
    destruct (processChange cfg _ _ _) as [[u m1] out]. simpl in *.
    apply (timers_indexed_frame (with_timers (delete i) m)); try assumption.
    destruct Hind as (ks & Hmap & Hs & Hlast).
    exists (delete i ks). simpl. split; [| split].
    + rewrite !list_fmap_delete, Hmap. reflexivity.
    + apply StronglySorted_delete. exact Hs.
    + destruct (lastPinChangeDate (self m)) as [l|].
      * destruct Hlast as (kl & Hkl & Hlt & Hall).
        exists kl. repeat split; [exact Hkl | exact Hlt |].
        apply Forall_delete. exact Hall.
      * subst ks. destruct i; reflexivity.
  - unfold bind, gets. destruct (reactions m !! i) as [r|]; [| exact Hind].
    unfold modify.
    pose proof (settle_self r (with_reactions (delete i) m)) as (Hs & Ht & Hc & Hk).
    unfold machine_of in *.
    destruct (settle r _) as [[u m1] out]. simpl in *.
    apply (timers_indexed_frame m); try assumption.
    + rewrite Hs. reflexivity.
    + lia.
  - destruct (enableOutput cfg) eqn:Ho; [| exact Hind].
    unfold_M. simpl. rewrite Ho. destruct value; exact Hind.
  - destruct (enableOutput cfg); exact Hind.
  - exact Hind.
Qed.

(** Throughout every run the pending timers carry readings taken one
    after the other, none later than the one in [lastPinChangeDate]. *)
Lemma after_timers_indexed (cfg : Config) (store : gmap string bool) (clk : nat -> Z)
    (g : Z -> Settled bool) (h : string -> AxiosOutcome) (acts : list Action) :
  timers_indexed (after cfg (boot store clk g h) acts).
Proof.
  apply (after_invariant timers_indexed).
  - pose proof (construct_frame cfg (boot store clk g h)) as (Ht & Hl & Hc & Hk).
    apply (timers_indexed_frame (boot store clk g h)); try assumption.
    apply boot_timers_indexed.
  - intros a m. apply step_timers_indexed.
Qed.

(** No step changes the clock. *)
Lemma after_clock (cfg : Config) (m0 : Machine) (acts : list Action) :
  clock (after cfg m0 acts) = clock m0.
Proof.
  apply (after_invariant (fun m => clock m = clock m0)).
  - apply construct_frame.
  - intros a m Hinv. destruct a as [pin co | i | i | value | | g h].
    + simpl step. rewrite handlePinChange_eq. exact Hinv.
    + destruct (timers m !! i) as [t|] eqn:Hi.
      * rewrite (step_TimerFires cfg i t m Hi).
        destruct (processChange_frame cfg (timerPin t) (changeTimeStamp t)
                    (with_timers (delete i) m)) as (_ & _ & Hc & _).
        rewrite Hc. exact Hinv.
      * simpl. unfold bind, gets. rewrite Hi. exact Hinv.
    + simpl step. unfold bind, gets. destruct (reactions m !! i) as [r|]; [| exact Hinv].
      unfold modify.
      pose proof (settle_self r (with_reactions (delete i) m)) as (_ & _ & Hc & _).
      unfold machine_of in *.
      destruct (settle r _) as [[u m1] out]. simpl in *.
      rewrite Hc. exact Hinv.
    + simpl step. destruct (enableOutput cfg) eqn:Ho; [| exact Hinv].
      unfold_M. simpl. rewrite Ho. destruct value; exact Hinv.
    + simpl step. destruct (enableOutput cfg); exact Hinv.
    + exact Hinv.
Qed.

(** C4 (amended). Every call of [handlePinChange] takes the current clock
    reading as change identifier, records it in [lastPinChangeDate] and
    schedules one evaluation that carries it, with the glitch delay.  An
    evaluation whose identifier differs from [lastPinChangeDate] when it
    fires changes nothing and emits only a debug line.  When no two clock
    readings are equal, then throughout every run the identifier of the
    next call is new (it differs from [lastPinChangeDate] and from the
    identifier of every pending evaluation), and every pending evaluation
    other than the most recently scheduled one is such a no-op when it
    fires. *)
Theorem staleness_guard (cfg : Config) :
  (forall (m : Machine) (pin : Z) (circuitOpen : bool),
     let m' := machine_of (handlePinChange cfg pin circuitOpen m) in
     lastPinChangeDate (self m') = Some (clock m (ticks m))
     /\ timers m' = timers m ++ [mkTimer (glitchTime cfg) pin (Some (clock m (ticks m)))])
  /\ (forall (m : Machine) (pin : Z) (stamp : option Z),
     lastPinChangeDate (self m) <> stamp ->
     processChange cfg pin stamp m = (tt, m, [Log Debug MsgIgnoreNotLast]))
  /\ (forall (store : gmap string bool) (clk : nat -> Z) (g : Z -> Settled bool)
            (h : string -> AxiosOutcome) (acts : list Action),
     distinct_readings clk ->
     let m := after cfg (boot store clk g h) acts in
     (forall (pin : Z) (circuitOpen : bool),
        let m' := machine_of (handlePinChange cfg pin circuitOpen m) in
        lastPinChangeDate (self m') <> lastPinChangeDate (self m)
        /\ forall t, t ∈ timers m -> changeTimeStamp t <> lastPinChangeDate (self m'))
     /\ (forall (i : nat) (t : Timer),
        timers m !! i = Some t ->
        (S i < length (timers m))%nat ->
        step cfg (TimerFires i) m
        = (tt, with_timers (delete i) m, [Log Debug MsgIgnoreNotLast]))).
Proof.
  split; [| split].
  - intros m pin co m'. subst m'. rewrite handlePinChange_eq. split; reflexivity.
  - intros m pin stamp Hne. apply processChange_stale. exact Hne.
  - intros store clk g h acts Hdist m.
    pose proof (after_timers_indexed cfg store clk g h acts) as Hind.
    pose proof (after_clock cfg (boot store clk g h) acts) as Hclk.
    fold m in Hind, Hclk. simpl in Hclk.
    destruct Hind as (ks & Hmap & Hs & Hlast). split.
    + intros pin co m'. subst m'. rewrite handlePinChange_eq.
      unfold machine_of. simpl. split.
      * destruct (lastPinChangeDate (self m)) as [l|]; [| discriminate].
        destruct Hlast as (kl & Hkl & Hlt & _).
        intros Heq. injection Heq as Heq. rewrite Hkl, Hclk in Heq.
        apply Hdist in Heq. lia.
      * intros t Hin Heq. apply list_elem_of_lookup in Hin. destruct Hin as [i Hi].
        destruct (timers_indexed_lookup m ks i t Hmap Hi) as (k & Hk & Hstamp).
        rewrite Hstamp in Heq. injection Heq as Heq. rewrite Hclk in Heq.
        apply Hdist in Heq. subst k.
        destruct (lastPinChangeDate (self m)) as [l|].
        -- destruct Hlast as (kl & _ & Hlt & Hall).
           pose proof (Forall_lookup_1 _ _ _ _ Hall Hk) as Hle. simpl in Hle. lia.
        -- subst ks. discriminate.
    + intros i t Hi Hlen. rewrite (step_TimerFires cfg i t m Hi).
      apply processChange_stale. simpl.
      destruct (lookup_lt_is_Some_2 (timers m) (S i) Hlen) as [t' Ht'].
      destruct (timers_indexed_lookup m ks i t Hmap Hi) as (k & Hk & Hstamp).
      destruct (timers_indexed_lookup m ks (S i) t' Hmap Ht') as (k' & Hk' & _).
      pose proof (StronglySorted_lookup lt ks Hs i (S i) k k'
                    (Nat.lt_succ_diag_r i) Hk Hk') as Hlt.
      destruct (lastPinChangeDate (self m)) as [l|]; [| subst ks; discriminate].
      destruct Hlast as (kl & Hkl & _ & Hall).
      pose proof (Forall_lookup_1 _ _ _ _ Hall Hk') as Hle. simpl in Hle.
      rewrite Hstamp, Hkl, Hclk. intros Heq. injection Heq as Heq.
      apply Hdist in Heq. lia.
Qed.

Lemma staleness_guard_witness :
  processChange sampleConfig 7 (Some 1000) (neverRang false workingWebhook)
  = (tt, neverRang false workingWebhook, [Log Debug MsgIgnoreNotLast])
  /\ step sampleConfig (TimerFires 0)
       (after sampleConfig (boot ∅ backClock steadyGpio workingWebhook)
          [PinChanges 7 false; PinChanges 7 true; PinChanges 7 false])
     = (tt,
        with_timers (delete 0%nat)
          (after sampleConfig (boot ∅ backClock steadyGpio workingWebhook)
             [PinChanges 7 false; PinChanges 7 true; PinChanges 7 false]),
        [Log Debug MsgIgnoreNotLast]).
Proof.
  assert (Hdist : distinct_readings backClock).
  { intros i j Hij. unfold backClock in Hij. lia. }
  split.
  - apply (proj1 (proj2 (staleness_guard sampleConfig))). discriminate.
  - apply (proj2 (proj2 (proj2 (staleness_guard sampleConfig))
                    ∅ backClock steadyGpio workingWebhook
                    [PinChanges 7 false; PinChanges 7 true; PinChanges 7 false]
                    Hdist)
             0%nat (mkTimer 100 7 (Some 5000))).
    + reflexivity.
    + simpl. lia.
Defined.

(** C4, as stated, fails when two changes are reported within the same
    millisecond.  After the constructor, both calls read 1000 from the
    clock, so both pending evaluations carry the identifier 1000, which is
    also [lastPinChangeDate]: the identifier of the second call is not
    distinguishable from that of the first, and the evaluation scheduled
    by the first call is not recognised as superseded: it passes the
    staleness check and goes on to read the pin and compare. *)
Lemma same_reading_same_identifier :
  map changeTimeStamp (timers sameMillisecond) = [Some 1000; Some 1000]
  /\ lastPinChangeDate (self sameMillisecond) = Some 1000
  /\ events_of (step sampleConfig (TimerFires 0) sameMillisecond)
     = [Log Debug (MsgIgnoreSame None None)].
Proof.
  repeat split; reflexivity.
Qed.

(** * Further properties of the accessory *)

(** ** Output of composed computations *)

Lemma events_of_bind {A B} (c : M A) (k : A -> M B) (m : Machine) :
  events_of (bind c k m)
  = events_of (c m) ++ events_of (k (value_of (c m)) (machine_of (c m))).
Proof.
  unfold bind, events_of, value_of, machine_of.
  destruct (c m) as [[a m1] out1]. simpl.
  destruct (k a m1) as [[b m2] out2]. reflexivity.
Qed.

Lemma machine_of_bind {A B} (c : M A) (k : A -> M B) (m : Machine) :
  machine_of (bind c k m) = machine_of (k (value_of (c m)) (machine_of (c m))).
Proof.
  unfold bind, events_of, value_of, machine_of.
  destruct (c m) as [[a m1] out1]. simpl.
  destruct (k a m1) as [[b m2] out2]. reflexivity.
Qed.

Lemma pinWrites_app (out1 out2 : list Event) :
  pinWrites (out1 ++ out2) = pinWrites out1 ++ pinWrites out2.
Proof. apply flat_map_app. Qed.

Lemma rings_app (out1 out2 : list Event) :
  rings (out1 ++ out2) = rings out1 ++ rings out2.
Proof. apply flat_map_app. Qed.

Lemma run_app (cfg : Config) (acts : list Action) (a : Action) (m : Machine) :
  machine_of (run cfg (acts ++ [a]) m)
  = machine_of (step cfg a (machine_of (run cfg acts m))).
Proof.
  revert m. induction acts as [|b acts IH]; intros m.
  - simpl. rewrite machine_of_bind. reflexivity.
  - simpl. rewrite !machine_of_bind. apply IH.
Qed.

Lemma after_snoc (cfg : Config) (m0 : Machine) (acts : list Action) (a : Action) :
  after cfg m0 (acts ++ [a]) = machine_of (step cfg a (after cfg m0 acts)).
Proof. rewrite !after_eq. apply run_app. Qed.

(** ** The constructor *)

Lemma construct_mute (cfg : Config) (m : Machine) :
  doorbellMute (self (machine_of (construct cfg m)))
  = default false (storage m !! doorbellMuteKey)
  /\ storage (machine_of (construct cfg m))
     = <[doorbellMuteKey := default false (storage m !! doorbellMuteKey)]> (storage m).
Proof.
  unfold construct, setupGpio. unfold_M. cbn -[read]. rewrite read_eq.
  destruct (enableOutput cfg); split; reflexivity.
Qed.

Lemma handleMuteSet_storage (cfg : Config) (value : bool) (m : Machine) :
  storage (machine_of (handleMuteSet cfg value m))
  = <[doorbellMuteKey := value]> (storage m).
Proof.
  unfold_M. simpl. destruct value, (enableOutput cfg); reflexivity.
Qed.

(** X1. The constructor restores the mute flag from the store, [false]
    when the key is missing, writes the restored value back under the key
    and reports it to the Mute characteristic.  It writes no pin, calls no
    sink and leaves the ring time and the change identifier as they
    were. *)
Theorem construct_restores_mute (cfg : Config) (m : Machine) :
  let r := construct cfg m in
  let restored := default false (storage m !! doorbellMuteKey) in
  doorbellMute (self (machine_of r)) = restored
  /\ storage (machine_of r) = <[doorbellMuteKey := restored]> (storage m)
  /\ UpdateCharacteristic (Mute restored) ∈ events_of r
  /\ pinWrites (events_of r) = []
  /\ rings (events_of r) = []
  /\ lastRang (self (machine_of r)) = lastRang (self m)
  /\ lastPinChangeDate (self (machine_of r)) = lastPinChangeDate (self m).
Proof.
  unfold construct, setupGpio. unfold_M. cbn -[read]. rewrite read_eq.
  destruct (enableOutput cfg); simpl; repeat split; try reflexivity;
    set_solver.
Qed.

(** X2. The mute flag survives a restart: the value [handleMuteSet] stored
    is the value the constructor of a new process restores from the same
    store, whatever the configuration, the clock and the pins. *)
Theorem mute_survives_restart (cfg cfg' : Config) (value : bool) (m : Machine)
    (clk : nat -> Z) (g : Z -> Settled bool) (h : string -> AxiosOutcome) :
  doorbellMute (self (machine_of
    (construct cfg' (boot (storage (machine_of (handleMuteSet cfg value m))) clk g h))))
  = value.
Proof.
  rewrite (proj1 (construct_mute cfg' _)). unfold boot. simpl.
  rewrite handleMuteSet_storage, lookup_insert_eq. reflexivity.
Qed.

(** X3. The store keeps the last value written: two calls of
    [handleMuteSet] leave the store as the second call alone would, and
    the flag at the second value. *)
Theorem handleMuteSet_last_wins (cfg : Config) (v1 v2 : bool) (m : Machine) :
  storage (machine_of (handleMuteSet cfg v2 (machine_of (handleMuteSet cfg v1 m))))
  = storage (machine_of (handleMuteSet cfg v2 m))
  /\ doorbellMute (self (machine_of
        (handleMuteSet cfg v2 (machine_of (handleMuteSet cfg v1 m))))) = v2.
Proof.
  split.
  - rewrite !handleMuteSet_storage. apply insert_insert_eq.
  - apply handleMuteSet_effect.
Qed.

(** X4. The constructor registers the change listener, sets up the input
    pin for both edges and, only when the output is enabled, the output
    pin at low level.  The read it starts stays pending, and when that
    promise settles, fulfilled or rejected, the accepted level is still
    [undefined]: the value read at start-up is never used. *)
Theorem construct_setup (cfg : Config) (m : Machine) :
  let r := construct cfg m in
  pinSetups (events_of r)
  = (gpioPin cfg, DIR_IN_EDGE_BOTH)
    :: (if enableOutput cfg then [(outputGpioPin cfg, DIR_LOW)] else [])
  /\ GpioOnChange ∈ events_of r
  /\ reactions (machine_of r)
     = reactions m ++ [ReadReaction (length (locals m)) (gpio m (gpioPin cfg))]
  /\ currentPinValue (self (machine_of
        (settle (ReadReaction (length (locals m)) (gpio m (gpioPin cfg)))
                (machine_of r)))) = None.
Proof.
  intros r. split; [| split; [| split]].
  - subst r. unfold construct, setupGpio. unfold_M. cbn -[read]. rewrite read_eq.
    destruct (enableOutput cfg); reflexivity.
  - subst r. unfold construct, setupGpio. unfold_M. cbn -[read]. rewrite read_eq.
    destruct (enableOutput cfg); simpl; set_solver.
  - subst r. unfold construct, setupGpio. unfold_M. cbn -[read]. rewrite read_eq.
    destruct (enableOutput cfg); reflexivity.
  - rewrite (proj1 (settle_self _ _)). apply construct_currentPinValue.
Qed.

(** ** The pin-change handler *)

(** X5. [handlePinChange] does not use the level the driver reports,
    except in its log line: the machine it leaves is the same for both
    levels.  It writes no pin, calls no sink, reads the clock once, and
    leaves the accepted level, the ring time, the mute flag and the store
    as they were. *)
Theorem handlePinChange_ignores_level (cfg : Config) (pin : Z) (circuitOpen : bool)
    (m : Machine) :
  let r := handlePinChange cfg pin circuitOpen m in
  machine_of r = machine_of (handlePinChange cfg pin (negb circuitOpen) m)
  /\ pinWrites (events_of r) = []
  /\ rings (events_of r) = []
  /\ ticks (machine_of r) = S (ticks m)
  /\ currentPinValue (self (machine_of r)) = currentPinValue (self m)
  /\ lastRang (self (machine_of r)) = lastRang (self m)
  /\ doorbellMute (self (machine_of r)) = doorbellMute (self m)
  /\ storage (machine_of r) = storage m.
Proof.
  intros r. subst r. rewrite !handlePinChange_eq.
  repeat split; reflexivity.
Qed.

(** ** The evaluation *)

Lemma processValue_currentPinValue (cfg : Config) (pin : Z) (cv : option bool)
    (m : Machine) :
  currentPinValue (self (machine_of (processValue cfg pin cv m))) = cv.
Proof.
  unfold_M. destruct (strict_eq cv (currentPinValue (self m))) eqn:Heq.
  - simpl. unfold strict_eq in Heq. apply bool_decide_eq_true_1 in Heq.
    symmetry. exact Heq.
  - split_cases; reflexivity.
Qed.

Lemma processValue_same (cfg : Config) (pin : Z) (m : Machine) :
  processValue cfg pin (currentPinValue (self m)) m
  = (tt, m, [Log Debug (MsgIgnoreSame (currentPinValue (self m))
                                      (currentPinValue (self m)))]).
Proof.
  unfold_M. unfold strict_eq. rewrite bool_decide_eq_true_2 by reflexivity.
  reflexivity.
Qed.

(** X6. Evaluating the same level twice acts once: after any evaluation of
    a value, an evaluation of the same value changes nothing, writes no
    pin, calls no sink and only logs that the value does not differ. *)
Theorem processValue_idempotent (cfg : Config) (pin : Z) (cv : option bool)
    (m : Machine) :
  let m1 := machine_of (processValue cfg pin cv m) in
  processValue cfg pin cv m1 = (tt, m1, [Log Debug (MsgIgnoreSame cv cv)]).
Proof.
  intros m1.
  pose proof (processValue_currentPinValue cfg pin cv m) as Hcur. fold m1 in Hcur.
  pose proof (processValue_same cfg pin m1) as Hsame.
  rewrite Hcur in Hsame. exact Hsame.
Qed.

(** X7. A ring time of 0 counts as no ring: [this.lastRang &&] is false
    for it, so an accepted press rings whatever the clock reads and however
    long the throttle window is. *)
Theorem zero_ring_time_not_throttled (cfg : Config) (pin : Z) (cv : option bool)
    (m : Machine) :
  strict_eq cv (currentPinValue (self m)) = false ->
  buttonPushed cfg cv = true ->
  lastRang (self m) = Some 0 ->
  let r := processValue cfg pin cv m in
  length (rings (events_of r)) = 1%nat
  /\ lastRang (self (machine_of r)) = Some (clock m (S (ticks m))).
Proof.
  intros Hacc Hp Hzero r.
  assert (Ht : throttled cfg (lastRang (self m)) (clock m (ticks m)) = false).
  { rewrite Hzero. reflexivity. }
  destruct (processValue_rings cfg pin cv m Hacc Hp Ht) as [H1 H2].
  subst r. rewrite H2. split; [reflexivity | exact H1].
Qed.

Lemma zero_ring_time_not_throttled_witness :
  length (rings (events_of
    (processValue sampleConfig 7 None
       (mkMachine (mkAccessory (Some 0) false None (Some true)) ∅
          (frozenClock 500) 0%nat steadyGpio workingWebhook [] [] [])))) = 1%nat.
Proof.
  apply (zero_ring_time_not_throttled sampleConfig 7 None
           (mkMachine (mkAccessory (Some 0) false None (Some true)) ∅
              (frozenClock 500) 0%nat steadyGpio workingWebhook [] [] []));
    reflexivity.
Defined.

Lemma processValue_rings_ticks (cfg : Config) (pin : Z) (cv : option bool) (m : Machine) :
  strict_eq cv (currentPinValue (self m)) = false ->
  buttonPushed cfg cv = true ->
  throttled cfg (lastRang (self m)) (clock m (ticks m)) = false ->
  ticks (machine_of (processValue cfg pin cv m)) = S (S (ticks m)).
Proof.
  intros Hacc Hp Ht. unfold_M. rewrite Hacc, Hp. simpl.
  destruct (enableOutput cfg), (doorbellMute (self m)); simpl;
    rewrite Ht; split_cases; reflexivity.
Qed.

(** X9. A press, a release and a second press: when the first press rang
    at a ring time other than 0 and the clock, at the second press, is
    still within the throttle window of that ring time, the second press
    calls no sink and the ring time stays that of the first press. *)
Theorem repress_within_window_throttled (cfg : Config) (pin : Z)
    (cv1 cv2 cv3 : option bool) (m : Machine) :
  strict_eq cv1 (currentPinValue (self m)) = false ->
  buttonPushed cfg cv1 = true ->
  throttled cfg (lastRang (self m)) (clock m (ticks m)) = false ->
  strict_eq cv2 cv1 = false ->
  buttonPushed cfg cv2 = false ->
  strict_eq cv3 cv2 = false ->
  buttonPushed cfg cv3 = true ->
  clock m (S (ticks m)) <> 0 ->
  clock m (S (S (ticks m))) - clock m (S (ticks m)) <= throttleTime cfg ->
  let m1 := machine_of (processValue cfg pin cv1 m) in
  let m2 := machine_of (processValue cfg pin cv2 m1) in
  let r := processValue cfg pin cv3 m2 in
  length (rings (events_of (processValue cfg pin cv1 m))) = 1%nat
  /\ rings (events_of (processValue cfg pin cv2 m1)) = []
  /\ rings (events_of r) = []
  /\ lastRang (self (machine_of r)) = Some (clock m (S (ticks m))).
Proof.
  intros Hacc1 Hp1 Ht1 Hacc2 Hp2 Hacc3 Hp3 Hnz Hwin m1 m2 r.
  destruct (processValue_rings cfg pin cv1 m Hacc1 Hp1 Ht1) as [Hrang1 Hrings1].
  pose proof (processValue_rings_ticks cfg pin cv1 m Hacc1 Hp1 Ht1) as Hticks1.
  pose proof (processValue_currentPinValue cfg pin cv1 m) as Hcur1.
  destruct (processValue_frame cfg pin cv1 m) as (_ & _ & Hclk1 & _).
  fold m1 in Hrang1, Hticks1, Hcur1, Hclk1.
  assert (Hacc2' : strict_eq cv2 (currentPinValue (self m1)) = false)
    by (rewrite Hcur1; exact Hacc2).
  destruct (processValue_release cfg pin cv2 m1 Hacc2' Hp2)
    as (Hrings2 & Hrang2 & Hticks2 & Hcur2).
  destruct (processValue_frame cfg pin cv2 m1) as (_ & _ & Hclk2 & _).
  fold m2 in Hrang2, Hticks2, Hcur2, Hclk2.
  assert (Hacc3' : strict_eq cv3 (currentPinValue (self m2)) = false)
    by (rewrite Hcur2; exact Hacc3).
  assert (Ht3 : throttled cfg (lastRang (self m2)) (clock m2 (ticks m2)) = true).
  { apply throttled_true_iff. exists (clock m (S (ticks m))).
    rewrite Hrang2, Hrang1, Hclk2, Hclk1, Hticks2, Hticks1. auto. }
  destruct (processValue_throttled cfg pin cv3 m2 Hacc3' Hp3 Ht3) as (Hrang3 & Hrings3 & _).
  fold r in Hrang3, Hrings3.
  split; [rewrite Hrings1; reflexivity |].
  split; [exact Hrings2 |].
  split; [exact Hrings3 |].
  rewrite Hrang3, Hrang2. exact Hrang1.
Qed.

Lemma repress_within_window_throttled_witness :
  rings (events_of
    (processValue sampleConfig 7 None
       (machine_of (processValue sampleConfig 7 (Some true)
          (machine_of (processValue sampleConfig 7 None
             (neverRang false workingWebhook))))))) = [].
Proof.
  apply (repress_within_window_throttled sampleConfig 7 None (Some true) None
           (neverRang false workingWebhook));
    try reflexivity.
  - discriminate.
  - simpl. unfold frozenClock. lia.
Defined.

(** ** Whole runs *)

Lemma settle_outputs (r : Reaction) (m : Machine) :
  pinWrites (events_of (settle r m)) = []
  /\ rings (events_of (settle r m)) = []
  /\ storage (machine_of (settle r m)) = storage m.
Proof.
  destruct r as [cell [val | err] | [u | e]]; unfold settle; unfold_M; simpl;
    repeat split; reflexivity.
Qed.

Lemma step_PromiseSettles (cfg : Config) (i : nat) (r : Reaction) (m : Machine) :
  reactions m !! i = Some r ->
  step cfg (PromiseSettles i) m = settle r (with_reactions (delete i) m).
Proof.
  intros Hi. simpl. unfold bind, gets, modify. rewrite Hi.
  destruct (settle r _) as [[u m1] out]. reflexivity.
Qed.

Lemma step_outputs (cfg : Config) (a : Action) (m : Machine) :
  currentPinValue (self m) = None ->
  rings (events_of (step cfg a m)) = []
  /\ pinWrites (events_of (step cfg a m)) = muteClearWrites cfg [a]
  /\ lastRang (self (machine_of (step cfg a m))) = lastRang (self m).
Proof.
  intros Hcur. destruct a as [pin co | i | i | value | | g h].
  - simpl step. rewrite handlePinChange_eq. repeat split; reflexivity.
  - destruct (timers m !! i) as [t|] eqn:Hi.
    + rewrite (step_TimerFires cfg i t m Hi).
      destruct (processChange_undefined cfg (timerPin t) (changeTimeStamp t)
                  (with_timers (delete i) m) Hcur) as (Hs & Hw & Hr & _).
      rewrite Hs. repeat split; assumption.
    + simpl. unfold bind, gets. rewrite Hi. repeat split; reflexivity.
  - destruct (reactions m !! i) as [r|] eqn:Hi.
    + rewrite (step_PromiseSettles cfg i r m Hi).
      destruct (settle_outputs r (with_reactions (delete i) m)) as (Hw & Hr & _).
      rewrite (proj1 (settle_self r _)). repeat split; assumption.
    + simpl. unfold bind, gets. rewrite Hi. repeat split; reflexivity.
  - simpl. destruct (enableOutput cfg) eqn:Ho.
    + unfold_M. simpl. rewrite Ho. destruct value; repeat split; reflexivity.
    + destruct value; repeat split; reflexivity.
  - simpl. destruct (enableOutput cfg); repeat split; reflexivity.
  - repeat split; reflexivity.
Qed.

Lemma muteClearWrites_cons (cfg : Config) (a : Action) (acts : list Action) :
  muteClearWrites cfg (a :: acts) = muteClearWrites cfg [a] ++ muteClearWrites cfg acts.
Proof. unfold muteClearWrites. simpl. rewrite app_nil_r. reflexivity. Qed.

Lemma run_outputs (cfg : Config) (acts : list Action) (m : Machine) :
  currentPinValue (self m) = None ->
  rings (events_of (run cfg acts m)) = []
  /\ pinWrites (events_of (run cfg acts m)) = muteClearWrites cfg acts
  /\ lastRang (self (machine_of (run cfg acts m))) = lastRang (self m).
Proof.
  revert m. induction acts as [|a acts IH]; intros m Hcur.
  - repeat split; reflexivity.
  - simpl run. rewrite events_of_bind, machine_of_bind, rings_app, pinWrites_app.
    destruct (step_outputs cfg a m Hcur) as (Hr & Hw & Hl).
    destruct (IH (machine_of (step cfg a m)) (step_currentPinValue cfg a m Hcur))
      as (Hr' & Hw' & Hl').
    rewrite Hr, Hr', Hw, Hw', Hl', Hl, (muteClearWrites_cons cfg a acts).
    repeat split; reflexivity.
Qed.

(** X10. In a whole run (the constructor, then any sequence of pin changes,
    timers firing, promises settling and mute requests) no sink is ever
    called, the ring time is never set and the accepted level stays
    [undefined]; the only pin writes are those of [handleMuteSet false],
    one write of [false] on the output pin for each such request when the
    output is enabled. *)
Theorem run_never_rings (cfg : Config) (m0 : Machine) (acts : list Action) :
  let r := (construct cfg ;; run cfg acts)%M m0 in
  rings (events_of r) = []
  /\ pinWrites (events_of r) = muteClearWrites cfg acts
  /\ lastRang (self (machine_of r)) = lastRang (self m0)
  /\ currentPinValue (self (machine_of r)) = None.
Proof.
  intros r. subst r.
  assert (Hcur : currentPinValue
                   (self (machine_of ((construct cfg ;; run cfg acts)%M m0))) = None)
    by apply (after_currentPinValue cfg m0 acts).
  revert Hcur.
  rewrite events_of_bind, machine_of_bind, rings_app, pinWrites_app.
  destruct (run_outputs cfg acts (machine_of (construct cfg m0))
              (construct_currentPinValue cfg m0)) as (Hr & Hw & Hl).
  rewrite Hr, Hw, Hl. intros Hcur.
  repeat split; try exact Hcur;
    unfold construct, setupGpio; unfold_M; cbn -[read muteClearWrites];
    rewrite read_eq; destruct (enableOutput cfg); reflexivity.
Qed.

Lemma processValue_frame_mute (cfg : Config) (pin : Z) (cv : option bool) (m : Machine) :
  storage (machine_of (processValue cfg pin cv m)) = storage m
  /\ doorbellMute (self (machine_of (processValue cfg pin cv m))) = doorbellMute (self m).
Proof.
  unfold_M. split_cases; split; reflexivity.
Qed.

Lemma processChange_frame_mute (cfg : Config) (pin : Z) (stamp : option Z) (m : Machine) :
  storage (machine_of (processChange cfg pin stamp m)) = storage m
  /\ doorbellMute (self (machine_of (processChange cfg pin stamp m)))
     = doorbellMute (self m).
Proof.
  destruct (decide (lastPinChangeDate (self m) = stamp)) as [<- | Hne].
  - rewrite processChange_fresh, machine_of_bind, read_eq.
    exact (processValue_frame_mute cfg pin None
             (with_reactions
                (fun l => l ++ [ReadReaction (length (locals m)) (gpio m pin)])
                (with_locals (fun l => l ++ [None]) m))).
  - rewrite processChange_stale by exact Hne. split; reflexivity.
Qed.

(** X11. Throughout every run the store holds, under the mute key, the
    value of the mute flag in memory. *)
Theorem mute_always_persisted (cfg : Config) (m0 : Machine) (acts : list Action) :
  storage (after cfg m0 acts) !! doorbellMuteKey
  = Some (doorbellMute (self (after cfg m0 acts))).
Proof.
  apply (after_invariant
           (fun m => storage m !! doorbellMuteKey = Some (doorbellMute (self m)))).
  - destruct (construct_mute cfg m0) as [Hm Hs]. rewrite Hm, Hs.
    apply lookup_insert_eq.
  - intros a m Hinv. destruct a as [pin co | i | i | value | | g h].
    + simpl step. rewrite handlePinChange_eq. exact Hinv.
    + destruct (timers m !! i) as [t|] eqn:Hi.
      * rewrite (step_TimerFires cfg i t m Hi).
        destruct (processChange_frame_mute cfg (timerPin t) (changeTimeStamp t)
                    (with_timers (delete i) m)) as [Hs Hm].
        rewrite Hs, Hm. exact Hinv.
      * simpl. unfold bind, gets. rewrite Hi. exact Hinv.
    + destruct (reactions m !! i) as [r|] eqn:Hi.
      * rewrite (step_PromiseSettles cfg i r m Hi).
        destruct (settle_outputs r (with_reactions (delete i) m)) as (_ & _ & Hs).
        rewrite Hs, (proj1 (settle_self r _)). exact Hinv.
      * simpl. unfold bind, gets. rewrite Hi. exact Hinv.
    + simpl. destruct (enableOutput cfg); [| exact Hinv].
      rewrite handleMuteSet_storage, (proj1 (handleMuteSet_effect cfg value m)).
      apply lookup_insert_eq.
    + simpl. destruct (enableOutput cfg); exact Hinv.
    + exact Hinv.
Qed.

Lemma handleMuteSet_timers (cfg : Config) (value : bool) (m : Machine) :
  timers (machine_of (handleMuteSet cfg value m)) = timers m
  /\ lastPinChangeDate (self (machine_of (handleMuteSet cfg value m)))
     = lastPinChangeDate (self m)
  /\ clock (machine_of (handleMuteSet cfg value m)) = clock m
  /\ ticks (machine_of (handleMuteSet cfg value m)) = ticks m.
Proof.
  unfold_M. simpl. destruct value, (enableOutput cfg); repeat split; reflexivity.
Qed.

(** X12. Throughout every run that starts with no timer pending, every
    pending evaluation was scheduled with the configured glitch delay and
    carries a defined change identifier. *)
Theorem timers_carry_glitchTime (cfg : Config) (store : gmap string bool)
    (clk : nat -> Z) (g : Z -> Settled bool) (h : string -> AxiosOutcome)
    (acts : list Action) :
  Forall (fun t => delay t = glitchTime cfg /\ is_Some (changeTimeStamp t))
         (timers (after cfg (boot store clk g h) acts)).
Proof.
  apply (after_invariant
           (fun m => Forall (fun t => delay t = glitchTime cfg
                                      /\ is_Some (changeTimeStamp t)) (timers m))).
  - rewrite (proj1 (construct_frame cfg _)). constructor.
  - intros a m Hinv. destruct a as [pin co | i | i | value | | g' h'].
    + simpl step. rewrite handlePinChange_eq. unfold machine_of. simpl.
      apply Forall_app. split; [exact Hinv |].
      constructor; [| constructor]. simpl. split; [reflexivity | eauto].
    + destruct (timers m !! i) as [t|] eqn:Hi.
      * rewrite (step_TimerFires cfg i t m Hi).
        rewrite (proj1 (processChange_frame cfg _ _ _)). simpl.
        apply Forall_delete. exact Hinv.
      * simpl. unfold bind, gets. rewrite Hi. exact Hinv.
    + destruct (reactions m !! i) as [r|] eqn:Hi.
      * rewrite (step_PromiseSettles cfg i r m Hi).
        rewrite (proj1 (proj2 (settle_self r _))). exact Hinv.
      * simpl. unfold bind, gets. rewrite Hi. exact Hinv.
    + simpl. destruct (enableOutput cfg); [| exact Hinv].
      rewrite (proj1 (handleMuteSet_timers cfg value m)). exact Hinv.
    + simpl. destruct (enableOutput cfg); exact Hinv.
    + exact Hinv.
Qed.

Lemma stamp_in_past_frame (m m' : Machine) :
  lastPinChangeDate (self m') = lastPinChangeDate (self m) ->
  clock m' = clock m ->
  (ticks m <= ticks m')%nat ->
  stamp_in_past m -> stamp_in_past m'.
Proof.
  intros Hl Hc Hk [Hmono Hpast]. unfold stamp_in_past. rewrite Hl, Hc.
  split; [exact Hmono |].
  destruct (lastPinChangeDate (self m)) as [l|]; [| exact I].
  specialize (Hmono (ticks m) (ticks m') Hk). lia.
Qed.

Lemma stamp_opt_le_refl (a : option Z) : stamp_opt_le a a.
Proof. destruct a; simpl; [lia | exact I]. Qed.

Lemma step_stamp (cfg : Config) (a : Action) (m : Machine) :
  stamp_in_past m ->
  stamp_in_past (machine_of (step cfg a m))
  /\ stamp_opt_le (lastPinChangeDate (self m))
                  (lastPinChangeDate (self (machine_of (step cfg a m)))).
Proof.
  intros Hinv. destruct a as [pin co | i | i | value | | g h].
  - simpl step. rewrite handlePinChange_eq. unfold machine_of. simpl.
    destruct Hinv as [Hmono Hpast]. split.
    + split; [exact Hmono |]. simpl. apply Hmono. lia.
    + unfold stamp_opt_le.
      destruct (lastPinChangeDate (self m)); [exact Hpast | exact I].
  - destruct (timers m !! i) as [t|] eqn:Hi.
    + rewrite (step_TimerFires cfg i t m Hi).
      destruct (processChange_frame cfg (timerPin t) (changeTimeStamp t)
                  (with_timers (delete i) m)) as (_ & Hl & Hc & Hk).
      split.
      * apply (stamp_in_past_frame (with_timers (delete i) m)); assumption.
      * rewrite Hl. apply stamp_opt_le_refl.
    + simpl. unfold bind, gets. rewrite Hi.
      split; [exact Hinv | apply stamp_opt_le_refl].
  - destruct (reactions m !! i) as [r|] eqn:Hi.
    + rewrite (step_PromiseSettles cfg i r m Hi).
      destruct (settle_self r (with_reactions (delete i) m)) as (Hs & _ & Hc & Hk).
      split.
      * apply (stamp_in_past_frame m); try assumption.
        -- rewrite Hs. reflexivity.
        -- rewrite Hk. simpl. lia.
      * rewrite Hs. apply stamp_opt_le_refl.
    + simpl. unfold bind, gets. rewrite Hi.
      split; [exact Hinv | apply stamp_opt_le_refl].
  - simpl. destruct (enableOutput cfg).
    + destruct (handleMuteSet_timers cfg value m) as (_ & Hl & Hc & Hk). split.
      * apply (stamp_in_past_frame m); try assumption. rewrite Hk. lia.
      * rewrite Hl. apply stamp_opt_le_refl.
    + split; [exact Hinv | apply stamp_opt_le_refl].
  - simpl. destruct (enableOutput cfg);
      (split; [exact Hinv | apply stamp_opt_le_refl]).
  - split; [exact Hinv | apply stamp_opt_le_refl].
Qed.

(** X13. With a clock that never goes back, the change identifier never
    decreases: whatever happens next in a run, [lastPinChangeDate] is
    afterwards at least what it was (and defined if it was). *)
Theorem lastPinChangeDate_monotone (cfg : Config) (store : gmap string bool)
    (clk : nat -> Z) (g : Z -> Settled bool) (h : string -> AxiosOutcome)
    (acts : list Action) (a : Action) :
  non_decreasing clk ->
  stamp_opt_le (lastPinChangeDate (self (after cfg (boot store clk g h) acts)))
               (lastPinChangeDate (self (after cfg (boot store clk g h) (acts ++ [a])))).
Proof.
  intros Hmono. rewrite after_snoc. apply step_stamp.
  apply (after_invariant stamp_in_past).
  - destruct (construct_frame cfg (boot store clk g h)) as (_ & Hl & Hc & Hk).
    apply (stamp_in_past_frame (boot store clk g h)); try assumption.
    split; [exact Hmono | exact I].
  - intros a' m Hinv. apply step_stamp. exact Hinv.
Qed.

Lemma lastPinChangeDate_monotone_witness :
  stamp_opt_le
    (lastPinChangeDate (self (after sampleConfig
        (boot ∅ sampleClock steadyGpio workingWebhook) [PinChanges 7 false])))
    (lastPinChangeDate (self (after sampleConfig
        (boot ∅ sampleClock steadyGpio workingWebhook)
        ([PinChanges 7 false] ++ [PinChanges 7 true])))).
Proof.
  apply (lastPinChangeDate_monotone sampleConfig ∅ sampleClock steadyGpio
           workingWebhook [PinChanges 7 false] (PinChanges 7 true)).
  intros i j Hij. unfold sampleClock. lia.
Defined.

Lemma muteClearWrites_disabled (cfg : Config) (acts : list Action) :
  enableOutput cfg = false -> muteClearWrites cfg acts = [].
Proof.
  intros Ho. unfold muteClearWrites.
  induction acts as [|a acts IH]; [reflexivity |].
  simpl. rewrite IH, Ho. destruct a as [| | | [|] | |]; reflexivity.
Qed.

(** X14. With the output disabled, nothing in a run ever writes a pin, and
    the mute flag stays at the value the constructor restored: the mute
    handlers are not registered. *)
Theorem output_disabled_is_inert (cfg : Config) (m0 : Machine) (acts : list Action) :
  enableOutput cfg = false ->
  let r := (construct cfg ;; run cfg acts)%M m0 in
  pinWrites (events_of r) = []
  /\ doorbellMute (self (machine_of r)) = default false (storage m0 !! doorbellMuteKey).
Proof.
  intros Ho r. split.
  - subst r. rewrite events_of_bind, pinWrites_app.
    destruct (run_outputs cfg acts (machine_of (construct cfg m0))
                (construct_currentPinValue cfg m0)) as (_ & Hw & _).
    rewrite Hw, (muteClearWrites_disabled cfg acts Ho), app_nil_r.
    unfold construct, setupGpio. unfold_M. cbn -[read]. rewrite read_eq, Ho.
    reflexivity.
  - change (machine_of r) with (after cfg m0 acts).
    apply (after_invariant
             (fun m => doorbellMute (self m)
                       = default false (storage m0 !! doorbellMuteKey))).
    + apply construct_mute.
    + intros a m Hinv. destruct a as [pin co | i | i | value | | g h].
      * simpl step. rewrite handlePinChange_eq. exact Hinv.
      * destruct (timers m !! i) as [t|] eqn:Hi.
        -- rewrite (step_TimerFires cfg i t m Hi).
           rewrite (proj2 (processChange_frame_mute cfg _ _ _)). exact Hinv.
        -- simpl. unfold bind, gets. rewrite Hi. exact Hinv.
      * destruct (reactions m !! i) as [r'|] eqn:Hi.
        -- rewrite (step_PromiseSettles cfg i r' m Hi).
           rewrite (proj1 (settle_self r' _)). exact Hinv.
        -- simpl. unfold bind, gets. rewrite Hi. exact Hinv.
      * simpl. rewrite Ho. exact Hinv.
      * simpl. rewrite Ho. exact Hinv.
      * exact Hinv.
Qed.

Lemma output_disabled_is_inert_witness :
  pinWrites (events_of
    ((construct (mkConfig "Doorbell" 7 false 11 false 100 1000 false None) ;;
      run (mkConfig "Doorbell" 7 false 11 false 100 1000 false None)
          [MuteSet false; PinChanges 7 false; TimerFires 0])%M
       (idle steadyGpio))) = [].
Proof.
  apply (output_disabled_is_inert
           (mkConfig "Doorbell" 7 false 11 false 100 1000 false None)
           (idle steadyGpio) [MuteSet false; PinChanges 7 false; TimerFires 0]).
  reflexivity.
Defined.

Lemma processValue_outputs_bounded (cfg : Config) (pin : Z) (cv : option bool)
    (m : Machine) :
  let r := processValue cfg pin cv m in
  (length (pinWrites (events_of r)) <= 1)%nat
  /\ (length (rings (events_of r)) <= 1)%nat
  /\ Forall (fun w => fst w = outputGpioPin cfg) (pinWrites (events_of r))
  /\ (if doorbellMute (self m) then pinWrites (events_of r) = [] else True)
  /\ (if enableOutput cfg then True else pinWrites (events_of r) = []).
Proof.
  destruct m as [[rang mute stamp cur] store clk n g h cells rs ts].
  unfold_M. simpl.
  destruct mute, (enableOutput cfg);
    repeat (simpl;
      match goal with
      | |- context [if ?b then _ else _] => destruct b eqn:?
      | |- context [match h ?u with _ => _ end] => destruct (h u) eqn:?
      | |- context [match response ?e with _ => _ end] =>
          destruct (response e) as [[? ?]|] eqn:?
      end);
    repeat split; simpl; try lia; repeat constructor.
Qed.

(** X15. Whatever the state, one evaluation writes the output pin at most
    once, and only the configured output pin, calls at most one sink, and
    writes nothing at all while the mute flag is set or the output is
    disabled. *)
Theorem evaluation_outputs_bounded (cfg : Config) (pin : Z) (stamp : option Z)
    (m : Machine) :
  let r := processChange cfg pin stamp m in
  (length (pinWrites (events_of r)) <= 1)%nat
  /\ (length (rings (events_of r)) <= 1)%nat
  /\ Forall (fun w => fst w = outputGpioPin cfg) (pinWrites (events_of r))
  /\ (if doorbellMute (self m) then pinWrites (events_of r) = [] else True)
  /\ (if enableOutput cfg then True else pinWrites (events_of r) = []).
Proof.
  intros r. subst r.
  destruct (decide (lastPinChangeDate (self m) = stamp)) as [<- | Hne].
  - rewrite processChange_fresh, events_of_bind, read_eq.
    exact (processValue_outputs_bounded cfg pin None
             (with_reactions
                (fun l => l ++ [ReadReaction (length (locals m)) (gpio m pin)])
                (with_locals (fun l => l ++ [None]) m))).
  - rewrite processChange_stale by exact Hne. simpl.
    destruct (doorbellMute (self m)), (enableOutput cfg);
      repeat split; simpl; try lia; constructor.
Qed.
